(** * dcache: the two-tier cache of common/dcache/redis.go

    A [RedisSession] keeps a process-local cache ([mem]) in front of a
    shared Redis store and tells its peers about writes over a pub/sub
    channel.  This file embeds the read path ([Get]), the write paths
    ([Set], [Delete], [ScanDelete]), the hash accessors, the notice
    publisher and the background listener ([subscribe]), and proves the
    properties the design document states about them.

    The collaborators the Go code only calls are interfaces here:
    - [Codec]: encoding/json ([json.Marshal], [json.Unmarshal]);
    - [RedisClient]: the go-redis handle ([redis.Client] and
      [redis.ClusterClient] offer the same commands);
    - [LocalCache]: [MemSession].
    Instances ([MiniJson], [MiniRedis], [MemSession]) follow the
    definitions, so that every function can be run on an explicit input.
    [Set] is a word of Rocq: the method is [Set_] here. *)

From Stdlib Require Import ZArith Lia Ascii.
From stdpp Require Import base strings gmap list pretty.

Open Scope Z_scope.

(** ** Go integers

    [int] and [int64] are 64 bits wide and wrap around; [time.Duration] is an
    [int64] count of nanoseconds. *)

Definition wrap64 (z : Z) : Z := (z + 2 ^ 63) mod 2 ^ 64 - 2 ^ 63.

Definition in_int64 (z : Z) : Prop := - 2 ^ 63 <= z < 2 ^ 63.

Definition int_add (a b : Z) : Z := wrap64 (a + b).
Definition int_sub (a b : Z) : Z := wrap64 (a - b).
Definition int_mul (a b : Z) : Z := wrap64 (a * b).

(** [time.Second] *)
Definition Second : Z := 1000000000.

(** [time.Second * time.Duration(ttl)] *)
Definition seconds_to_duration (ttl : Z) : Z := int_mul Second ttl.

(** [int(d.Seconds())]: the float conversion truncates toward zero.  The
    replies of the TTL command are whole seconds, or -1ns and -2ns for "no
    expiry" and "no such key"; on those the floating point value is exact. *)
Definition duration_to_seconds (d : Z) : Z := Z.quot d Second.

(** ** Constants (redis.go, lines 14-19) *)

Definition redis_item_timeout : Z := 60 * 60.
Definition redis_sync_chan : string := "dcach_sync".
Definition redis_sync_set : Z := 1.
Definition redis_sync_del : Z := 2.

(** ** The notice sent over the channel *)

Record publisher := {
  From : string;
  Act : Z;
  Key : string;
  Val : string;
  Ttl : Z
}.

(** The zero value of [var pub publisher]. *)
Definition publisher_zero : publisher :=
  {| From := ""; Act := 0; Key := ""; Val := ""; Ttl := 0 |}.

(** ** Collaborators *)

Definition error := string.

(** The two results of a go-redis command: a value, or a non-nil [Err()]. *)
Inductive reply (A : Type) :=
| Ok (a : A)
| Err (e : error).
Arguments Ok {A} a.
Arguments Err {A} e.

(** encoding/json.  [unmarshal_publisher] decodes into an existing struct,
    as [json.Unmarshal(payload, &pub)] does: it returns the struct after the
    call and whether the call succeeded. *)
Class Codec (Value : Type) := {
  marshal : Value -> option string;
  unmarshal : string -> option Value;
  marshal_publisher : publisher -> option string;
  unmarshal_publisher : string -> publisher -> publisher * bool
}.

(** The commands the session sends. *)
Inductive Cmd :=
| CmdGet (key : string)
| CmdSet (key value : string) (expiration : Z)
| CmdDel (key : string)
| CmdTTL (key : string)
| CmdScan (cursor : Z) (pattern : string) (count : Z)
| CmdHGet (key field : string)
| CmdHSet (key field data : string)
| CmdHDel (key : string) (fields : list string)
| CmdPublish (channel message : string)
| CmdSubscribe (channel : string).

#[global] Instance Cmd_eq_dec : EqDecision Cmd.
Proof. solve_decision. Defined.

(** A go-redis handle with state [R]: every command takes the state of the
    connection (and of the store behind it) to a reply and a new state. *)
Class RedisClient (R : Type) := {
  redisGet : string -> R -> reply string * R;
  redisSet : string -> string -> Z -> R -> option error * R;
  redisDel : string -> R -> reply Z * R;
  redisTTL : string -> R -> Z * R;
  redisScan : Z -> string -> Z -> R -> reply (list string * Z) * R;
  redisHGet : string -> string -> R -> reply string * R;
  redisHSet : string -> string -> string -> R -> option error * R;
  redisHDel : string -> list string -> R -> option error * R;
  redisPublish : string -> string -> R -> option error * R
}.

(** [MemSession]: the process-local cache. *)
Class LocalCache (M : Type) := {
  newMemSession : M;
  memGet : string -> M -> option string;
  memSet : string -> string -> Z -> M -> bool * M;
  memDelete : string -> M -> M;
  memCheck : string -> M -> bool
}.

(** What a cache has to do for a write to be readable at once: a [Set] with
    a positive lifetime is found by the next [Get] of the key. *)
Definition set_then_get (M : Type) {cache : LocalCache M} : Prop :=
  forall key s ttl m, 0 < ttl -> memGet key (memSet key s ttl m).2 = Some s.

(** A store that hands out no more keys than a scan asks for. *)
Definition honours_count (R : Type) {redis : RedisClient R} : Prop :=
  forall cursor pattern count r keys next r',
    0 <= count ->
    redisScan cursor pattern count r = (Ok (keys, next), r') ->
    Z.of_nat (length keys) <= count.

(** Decoding undoes encoding. *)
Definition json_roundtrip (Value : Type) {codec : Codec Value} : Prop :=
  forall v s, marshal v = Some s -> unmarshal s = Some v.

(** ** The session and its node *)

Section Session.

Context {Value R M : Type}.
Context {codec : Codec Value} {redis : RedisClient R} {cache : LocalCache M}.

(** [type RedisSession struct].  [client] and [clusterCLi] hold the state
    of the two handles; [cluster] says which one the session uses.  Both
    constructors allocate [mem], so the pointer is never nil and the
    guards [rs.mem != nil] of [Set] and [Delete] always pass. *)
Record RedisSession := {
  client : R;
  clusterCLi : R;
  ip : string;
  pass : string;
  name : string;
  mem : M;
  cluster : bool
}.

(** The calls started with [go]. *)
Inductive goroutine :=
| go_publish (key val : string) (ttl act : Z)
| go_subscribe.

(** A node: the session, the goroutines it has started, and the commands
    it has sent so far, each with the handle it went to ([true] for
    [clusterCLi]). *)
Record Node := {
  rs : RedisSession;
  spawned : list goroutine;
  issued : list (bool * Cmd)
}.

Definition with_client (r : R) (s : RedisSession) : RedisSession :=
  {| client := r; clusterCLi := clusterCLi s; ip := ip s; pass := pass s;
     name := name s; mem := mem s; cluster := cluster s |}.

Definition with_clusterCLi (r : R) (s : RedisSession) : RedisSession :=
  {| client := client s; clusterCLi := r; ip := ip s; pass := pass s;
     name := name s; mem := mem s; cluster := cluster s |}.

Definition with_mem (m : M) (s : RedisSession) : RedisSession :=
  {| client := client s; clusterCLi := clusterCLi s; ip := ip s;
     pass := pass s; name := name s; mem := m; cluster := cluster s |}.

(** *** State passing

    The calls to [log] write a line and change nothing that is modelled;
    they are left out. *)

Definition St (A : Type) : Type := Node -> A * Node.

Definition ret {A} (a : A) : St A := fun w => (a, w).

Definition bind {A B} (c : St A) (k : A -> St B) : St B :=
  fun w => let (a, w') := c w in k a w'.

Notation "x <- c ;; k" := (bind c (fun x => k))
  (at level 100, c at next level, right associativity).
Notation "c ;;; k" := (bind c (fun _ => k))
  (at level 100, right associativity).

Definition self : St RedisSession := fun w => (rs w, w).

(** A command on [rs.client]. *)
Definition on_client {A} (c : Cmd) (op : R -> A * R) : St A :=
  fun w =>
    let (a, r) := op (client (rs w)) in
    (a, {| rs := with_client r (rs w); spawned := spawned w;
           issued := issued w ++ [(false, c)] |}).

(** A command on [rs.clusterCLi]. *)
Definition on_clusterCLi {A} (c : Cmd) (op : R -> A * R) : St A :=
  fun w =>
    let (a, r) := op (clusterCLi (rs w)) in
    (a, {| rs := with_clusterCLi r (rs w); spawned := spawned w;
           issued := issued w ++ [(true, c)] |}).

Definition mem_Get (key : string) : St (option string) :=
  fun w => (memGet key (mem (rs w)), w).

Definition mem_Set (key s : string) (ttl : Z) : St bool :=
  fun w =>
    let (b, m) := memSet key s ttl (mem (rs w)) in
    (b, {| rs := with_mem m (rs w); spawned := spawned w;
           issued := issued w |}).

Definition mem_Delete (key : string) : St unit :=
  fun w =>
    (tt, {| rs := with_mem (memDelete key (mem (rs w))) (rs w);
            spawned := spawned w; issued := issued w |}).

(** [go f(...)]: the call is handed to the scheduler. *)
Definition go (g : goroutine) : St unit :=
  fun w =>
    (tt, {| rs := rs w; spawned := spawned w ++ [g]; issued := issued w |}).

(** *** getTtl (lines 128-136) *)

Definition getTtl (key : string) : St (Z * bool) :=
  s <- self ;;
  dur <- (if cluster s
          then on_clusterCLi (CmdTTL key) (redisTTL key)
          else on_client (CmdTTL key) (redisTTL key)) ;;
  ret (duration_to_seconds dur, true).

(** *** HGet, HSet, HDel (lines 137-155) *)

Definition HGet (key field : string) : St (reply string) :=
  s <- self ;;
  if cluster s
  then on_clusterCLi (CmdHGet key field) (redisHGet key field)
  else on_client (CmdHGet key field) (redisHGet key field).

Definition HSet (key field data : string) : St (option error) :=
  s <- self ;;
  if cluster s
  then on_clusterCLi (CmdHSet key field data) (redisHSet key field data)
  else on_client (CmdHSet key field data) (redisHSet key field data).

(** Both branches call [HDel(ctx, key)]: the variadic list of fields is
    empty, [field] is not used. *)
Definition HDel (key field : string) : St (option error) :=
  s <- self ;;
  if cluster s
  then on_clusterCLi (CmdHDel key []) (redisHDel key [])
  else on_client (CmdHDel key []) (redisHDel key []).

(** *** Get (lines 157-188)

    The result is the boolean and the value decoded into [data], if any.
    [Get_at] also says which [return] statement produced it. *)

Inductive GetReturn :=
| ret_store_err       (* line 168: the store's Get failed *)
| ret_store_decode    (* line 176: the store's value does not decode *)
| ret_repopulated     (* line 179: return rs.mem.Set(key, s, ttl-5) *)
| ret_no_ttl          (* line 181: getTtl said no *)
| ret_mem_decode      (* line 185: the cached value does not decode *)
| ret_mem_hit.        (* line 187 *)

Definition Get_at (key : string) : St (GetReturn * (bool * option Value)) :=
  found <- mem_Get key ;;
  match found with
  | None =>
      s0 <- self ;;
      str <- (if cluster s0
              then on_clusterCLi (CmdGet key) (redisGet key)
              else on_client (CmdGet key) (redisGet key)) ;;
      match str with
      | Err _ => ret (ret_store_err, (false, None))
      | Ok s =>
          t <- getTtl key ;;
          let (ttl, ok) := t in
          if ok then
            match unmarshal s with
            | None => ret (ret_store_decode, (false, None))
            | Some v =>
                b <- mem_Set key s (int_sub ttl 5) ;;
                ret (ret_repopulated, (b, Some v))
            end
          else ret (ret_no_ttl, (false, None))
      end
  | Some s =>
      match unmarshal s with
      | None => ret (ret_mem_decode, (false, None))
      | Some v => ret (ret_mem_hit, (true, Some v))
      end
  end.

Definition Get (key : string) : St (bool * option Value) :=
  r <- Get_at key ;; ret r.2.

(** *** Set (lines 190-219) *)

Definition Set_ (key : string) (data : Value) (ttl : Z) : St bool :=
  match marshal data with
  | None => ret false
  | Some s =>
      let ttl := if ttl <=? 0 then redis_item_timeout else ttl in
      s0 <- self ;;
      rsp <- (if cluster s0
              then on_clusterCLi (CmdSet key s (seconds_to_duration ttl))
                     (redisSet key s (seconds_to_duration ttl))
              else on_client (CmdSet key s (seconds_to_duration ttl))
                     (redisSet key s (seconds_to_duration ttl))) ;;
      match rsp with
      | Some _ => ret false
      | None =>
          mem_Set key s ttl ;;;
          go (go_publish key s ttl redis_sync_set) ;;;
          ret true
      end
  end.

(** *** Delete (lines 221-238): the reply of the store is only logged. *)

Definition Delete (key : string) : St bool :=
  s0 <- self ;;
  (if cluster s0
   then on_clusterCLi (CmdDel key) (redisDel key)
   else on_client (CmdDel key) (redisDel key)) ;;;
  mem_Delete key ;;;
  go (go_publish key "" 0 redis_sync_del) ;;;
  ret true.

(** *** ScanDelete (lines 240-274)

    [del_keys] is the inner [for _, v := range keys]: it stops at the
    first delete that fails and hands back its error. *)

Fixpoint del_keys (keys : list string) : St (option error) :=
  match keys with
  | [] => ret None
  | v :: rest =>
      s0 <- self ;;
      r <- (if cluster s0
            then on_clusterCLi (CmdDel v) (redisDel v)
            else on_client (CmdDel v) (redisDel v)) ;;
      match r with
      | Err e => ret (Some e)
      | Ok _ => del_keys rest
      end
  end.

(** The outer [for] runs until a scan hands back cursor zero, which is up
    to the store; [fuel] bounds the number of rounds, and [None] means
    that the loop was still running when the fuel ran out. *)
Fixpoint ScanDelete_from (fuel : nat) (key : string) (cursor : Z) (n : Z)
  : St (option (Z * option error)) :=
  match fuel with
  | O => ret None
  | S fuel' =>
      s0 <- self ;;
      r <- (if cluster s0
            then on_clusterCLi (CmdScan cursor key 100)
                   (redisScan cursor key 100)
            else on_client (CmdScan cursor key 100)
                   (redisScan cursor key 100)) ;;
      match r with
      | Err e => ret (Some (0, Some e))
      | Ok (keys, cursor') =>
          let n' := int_add n (Z.of_nat (length keys)) in
          e <- del_keys keys ;;
          match e with
          | Some e => ret (Some (n', Some e))
          | None =>
              if cursor' =? 0 then ret (Some (n', None))
              else ScanDelete_from fuel' key cursor' n'
          end
      end
  end.

Definition ScanDelete (fuel : nat) (key : string)
  : St (option (Z * option error)) :=
  ScanDelete_from fuel key 0 0.

(** *** publish (lines 100-125) *)

Definition publish (key val : string) (ttl act : Z) : St unit :=
  s0 <- self ;;
  let p := {| From := name s0; Act := act; Key := key; Val := val;
              Ttl := ttl |} in
  match marshal_publisher p with
  | None => ret tt
  | Some s =>
      (if cluster s0
       then on_clusterCLi (CmdPublish redis_sync_chan s)
              (redisPublish redis_sync_chan s)
       else on_client (CmdPublish redis_sync_chan s)
              (redisPublish redis_sync_chan s)) ;;;
      ret tt
  end.

(** *** subscribe (lines 72-97)

    [on_message] is the body of [for msg := range chn]; [pub] is declared
    once before the loop and decoded into again at every message. *)

Definition on_message (payload : string) (pub : publisher) : St publisher :=
  let (pub, ok) := unmarshal_publisher payload pub in
  if ok then
    s0 <- self ;;
    if negb (String.eqb (From pub) (name s0)) then
      if negb (String.eqb (From pub) (name s0)) then
        if Act pub =? redis_sync_set then
          mem_Set (Key pub) (Val pub) (Ttl pub) ;;; ret pub
        else if Act pub =? redis_sync_del then
          mem_Delete (Key pub) ;;; ret pub
        else ret pub
      else ret pub
    else ret pub
  else ret pub.

Fixpoint listen (chn : list string) (pub : publisher) : St unit :=
  match chn with
  | [] => ret tt
  | msg :: more => pub' <- on_message msg pub ;; listen more pub'
  end.

(** The listener on the messages [chn] that the channel delivers. *)
Definition subscribe (chn : list string) : St unit :=
  s0 <- self ;;
  (if cluster s0
   then on_clusterCLi (CmdSubscribe redis_sync_chan) (fun r => (tt, r))
   else on_client (CmdSubscribe redis_sync_chan) (fun r => (tt, r))) ;;;
  listen chn publisher_zero.

(** What the scheduler runs for a started call; the listener is given the
    messages the channel delivers. *)
Definition run (g : goroutine) (chn : list string) : St unit :=
  match g with
  | go_publish key val ttl act => publish key val ttl act
  | go_subscribe => subscribe chn
  end.

(** *** newRedis, newRedisCluster (lines 39-67)

    [conn] is the state of the fresh handle and [id] the string drawn by
    [utils.GetRandomString(16)]. *)

Definition newRedis (addr pw id : string) (conn idle : R) : Node :=
  {| rs := {| client := conn; clusterCLi := idle; ip := addr; pass := pw;
              name := id; mem := newMemSession; cluster := false |};
     spawned := [go_subscribe]; issued := [] |}.

Definition newRedisCluster (pw id : string) (conn idle : R) : Node :=
  {| rs := {| client := idle; clusterCLi := conn; ip := ""; pass := pw;
              name := id; mem := newMemSession; cluster := true |};
     spawned := [go_subscribe]; issued := [] |}.

(** *** Words for the statements

    The handle the session talks to, and a command on it: each
    [if rs.cluster { ... } else { ... }] of the source is [on_handle]
    (lemma [pick_handle] below). *)

Definition handle (s : RedisSession) : R :=
  if cluster s then clusterCLi s else client s.

Definition with_handle (r : R) (s : RedisSession) : RedisSession :=
  if cluster s then with_clusterCLi r s else with_client r s.

Definition on_handle {A} (c : Cmd) (op : R -> A * R) : St A :=
  fun w =>
    let (a, r) := op (handle (rs w)) in
    (a, {| rs := with_handle r (rs w); spawned := spawned w;
           issued := issued w ++ [(cluster (rs w), c)] |}).

(** The notice a started call to [publish] builds on session [s]. *)
Definition notice_of (g : goroutine) (s : RedisSession) : option publisher :=
  match g with
  | go_publish key val ttl act =>
      Some {| From := name s; Act := act; Key := key; Val := val;
              Ttl := ttl |}
  | go_subscribe => None
  end.

(** The count [ScanDelete] holds after the pages [pages], each given with
    the cursor it was asked for: [n += len(keys)] once per page. *)
Definition scanned (n : Z) (pages : list (Z * list string)) : Z :=
  foldl (fun n p => int_add n (Z.of_nat (length p.2))) n pages.

(** [rounds key w c pages w' c']: from node [w] with cursor [c], the loop
    of [ScanDelete] makes one round per element of [pages]: it asks the
    store for 100 keys at the cursor, is given the page and a cursor that
    is not zero, and deletes every key of the page; the last round leaves
    node [w'] and cursor [c']. *)
Inductive rounds (key : string)
  : Node -> Z -> list (Z * list string) -> Node -> Z -> Prop :=
| rounds_done w c : rounds key w c [] w c
| rounds_more w c keys c1 w1 w2 pages w3 c3 :
    on_handle (CmdScan c key 100) (redisScan c key 100) w
    = (Ok (keys, c1), w1) ->
    del_keys keys w1 = (None, w2) ->
    c1 <> 0 ->
    rounds key w2 c1 pages w3 c3 ->
    rounds key w c ((c, keys) :: pages) w3 c3.

(** The rounds that go through, computed: [play] runs the loop for as
    long as scans and deletes succeed and the cursor is not zero, and
    stops in front of the first round that ends the loop. *)
Fixpoint play (fuel : nat) (key : string) (c : Z) (w : Node)
  : list (Z * list string) * Node * Z :=
  match fuel with
  | O => ([], w, c)
  | S fuel' =>
      match on_handle (CmdScan c key 100) (redisScan c key 100) w with
      | (Ok (keys, c1), w1) =>
          match del_keys keys w1 with
          | (None, w2) =>
              if c1 =? 0 then ([], w, c)
              else
                let '(pages, w3, c3) := play fuel' key c1 w2 in
                ((c, keys) :: pages, w3, c3)
          | (Some _, _) => ([], w, c)
          end
      | (Err _, _) => ([], w, c)
      end
  end.

(** The commands of the rounds over [pages] on handle [h]: per page the
    scan at its cursor, then one delete per key. *)
Definition commands (h : bool) (key : string) (pages : list (Z * list string))
  : list (bool * Cmd) :=
  concat (map (fun p => (h, CmdScan p.1 key 100)
                        :: map (fun k => (h, CmdDel k)) p.2) pages).

(** The number of keys on the pages. *)
Definition total (pages : list (Z * list string)) : Z :=
  Z.of_nat (length (concat (map snd pages))).

(** The lifetime [Set] works with: [if ttl <= 0 { ttl = redis_item_timeout }]. *)
Definition lifetime (ttl : Z) : Z :=
  if ttl <=? 0 then redis_item_timeout else ttl.

End Session.

Arguments RedisSession : clear implicits.
Arguments Node : clear implicits.
Arguments St : clear implicits.

(** ** Callers

    What a program that holds a session can do with it, and the words for
    what the session keeps while it does. *)

Section Callers.

Context {Value R M : Type}.
Context {codec : Codec Value} {redis : RedisClient R} {cache : LocalCache M}.

(** *** CheckMem (lines 317-319) *)

Definition CheckMem (key : string) : St R M bool :=
  fun w => (memCheck key (mem (rs w)), w).

(** The struct [pub] of the listener after the messages [chn]: every
    message is decoded into what the one before left there. *)
Definition pub_after (chn : list string) (pub : publisher) : publisher :=
  foldl (fun pub msg => (unmarshal_publisher msg pub).1) pub chn.

(** The calls of a program, and the scheduler running a started
    goroutine ([chn] being what the channel then delivers to a listener). *)
Inductive call :=
| call_Get (key : string)
| call_Set (key : string) (data : Value) (ttl : Z)
| call_Delete (key : string)
| call_ScanDelete (fuel : nat) (key : string)
| call_HGet (key field : string)
| call_HSet (key field data : string)
| call_HDel (key field : string)
| call_CheckMem (key : string)
| call_run (g : goroutine) (chn : list string).

Definition perform (c : call) (w : Node R M) : Node R M :=
  match c with
  | call_Get key => (Get key w).2
  | call_Set key data ttl => (Set_ key data ttl w).2
  | call_Delete key => (Delete key w).2
  | call_ScanDelete fuel key => (ScanDelete fuel key w).2
  | call_HGet key field => (HGet key field w).2
  | call_HSet key field data => (HSet key field data w).2
  | call_HDel key field => (HDel key field w).2
  | call_CheckMem key => (CheckMem key w).2
  | call_run g chn => (run g chn w).2
  end.

Definition perform_all (cs : list call) (w : Node R M) : Node R M :=
  foldl (fun w c => perform c w) w cs.

(** The handle the session does not use. *)
Definition spare (s : RedisSession R M) : R :=
  if cluster s then client s else clusterCLi s.

(** [kept w w']: from [w] to [w'] the session has kept its name, its
    topology, its address and password and its spare handle; commands were
    only added to the log, all of them on the handle of the topology; and
    goroutines were only added. *)
Record kept (w w' : Node R M) : Prop := {
  kept_name : name (rs w') = name (rs w);
  kept_cluster : cluster (rs w') = cluster (rs w);
  kept_ip : ip (rs w') = ip (rs w);
  kept_pass : pass (rs w') = pass (rs w);
  kept_spare : spare (rs w') = spare (rs w);
  kept_issued :
    exists cmds,
      issued w' = issued w ++ cmds /\
      Forall (fun c => c.1 = cluster (rs w)) cmds;
  kept_spawned : exists gs, spawned w' = spawned w ++ gs
}.

(** A computation that keeps the session from every node. *)
Definition keeps {A} (c : St R M A) : Prop := forall w, kept w (c w).2.

(** A computation that leaves the local cache and the goroutines alone. *)
Definition store_only {A} (c : St R M A) : Prop :=
  forall w, mem (rs (c w).2) = mem (rs w) /\ spawned (c w).2 = spawned w.

End Callers.

(** The number of deletes among commands. *)
Definition is_delete (c : Cmd) : bool :=
  match c with
  | CmdDel _ => true
  | _ => false
  end.

Definition deletes (cmds : list (bool * Cmd)) : nat :=
  length (List.filter (fun c => is_delete c.2) cmds).

(** A cache in which a deleted key is not found. *)
Definition delete_then_get (M : Type) {cache : LocalCache M} : Prop :=
  forall key m, memGet key (memDelete key m) = None.

(** ** Instances to run the code on

    *** A cut-down codec

    Values are [nil], the booleans and a channel; [json.Marshal] refuses
    channels ("json: unsupported type").  [null], [true] and [false] are
    written as in JSON.  A notice travels as five lines: From, Act, Key, Val
    and Ttl, the numbers in decimal. *)

Inductive GoValue :=
| GoNil
| GoBool (b : bool)
| GoChan.

Definition mini_marshal (v : GoValue) : option string :=
  match v with
  | GoNil => Some "null"
  | GoBool true => Some "true"
  | GoBool false => Some "false"
  | GoChan => None
  end.

Definition mini_unmarshal (s : string) : option GoValue :=
  if String.eqb s "null" then Some GoNil
  else if String.eqb s "true" then Some (GoBool true)
  else if String.eqb s "false" then Some (GoBool false)
  else None.

Definition newline : Ascii.ascii := Ascii.ascii_of_nat 10.

Fixpoint lines (s : string) : list string :=
  match s with
  | EmptyString => [EmptyString]
  | String c s' =>
      if Ascii.eqb c newline then EmptyString :: lines s'
      else match lines s' with
           | [] => [String c EmptyString]
           | l :: ls => String c l :: ls
           end
  end.

Fixpoint parse_digits (s : string) (acc : Z) : option Z :=
  match s with
  | EmptyString => Some acc
  | String c s' =>
      let d := Z.of_nat (Ascii.nat_of_ascii c) - 48 in
      if (0 <=? d) && (d <=? 9) then parse_digits s' (10 * acc + d) else None
  end.

Definition parse_int (s : string) : option Z :=
  match s with
  | EmptyString => None
  | String c s' =>
      if Ascii.eqb c "-"%char
      then match s' with
           | EmptyString => None
           | _ => Z.opp <$> parse_digits s' 0
           end
      else parse_digits s 0
  end.

Definition mini_marshal_publisher (p : publisher) : option string :=
  let nl := String newline EmptyString in
  Some (From p +:+ nl +:+ pretty (Act p) +:+ nl +:+ Key p +:+ nl +:+ Val p
        +:+ nl +:+ pretty (Ttl p)).

Definition mini_unmarshal_publisher (payload : string) (pub : publisher)
  : publisher * bool :=
  match lines payload with
  | [f; a; k; v; t] =>
      match parse_int a, parse_int t with
      | Some a, Some t =>
          ({| From := f; Act := a; Key := k; Val := v; Ttl := t |}, true)
      | _, _ => (pub, false)
      end
  | _ => (pub, false)
  end.

#[global] Instance MiniJson : Codec GoValue := {
  marshal := mini_marshal;
  unmarshal := mini_unmarshal;
  marshal_publisher := mini_marshal_publisher;
  unmarshal_publisher := mini_unmarshal_publisher
}.

(** *** MemSession *)

(** Modelled from the spec: [MemSession] and its methods [Get], [Set],
    [Delete] and [Check] (with [newMemSession]) are called by redis.go but
    defined in a file that is not among the sources.  The design document
    gives the cache as a mapping from key to serialized value that knows
    each entry's lifetime, with [Get(key) -> (bytes, found)],
    [Set(key, bytes, ttlSeconds) -> bool], [Delete(key)] and
    [Check(key) -> bool].  An entry is the payload with the lifetime it was
    stored with; there is no clock here, so no entry lapses between two
    calls. *)
Definition MemSession : Type := gmap string (string * Z).

Definition MemSession_Get (key : string) (m : gmap string (string * Z))
  : option string :=
  fst <$> m !! key.

Definition MemSession_Set (key s : string) (ttl : Z)
  (m : gmap string (string * Z)) : bool * gmap string (string * Z) :=
  (true, <[key := (s, ttl)]> m).

Definition MemSession_Delete (key : string) (m : gmap string (string * Z))
  : gmap string (string * Z) :=
  delete key m.

Definition MemSession_Check (key : string) (m : gmap string (string * Z))
  : bool :=
  bool_decide (is_Some (m !! key)).

#[global] Instance MemSession_cache : LocalCache MemSession := {
  newMemSession := (∅ : gmap string (string * Z));
  memGet := MemSession_Get;
  memSet := MemSession_Set;
  memDelete := MemSession_Delete;
  memCheck := MemSession_Check
}.

(** *** A store in memory

    Enough of Redis to answer the commands of the session: string keys with
    a remaining lifetime in nanoseconds (-1 for none), hashes, a channel,
    and a list of commands that are made to fail.  SCAN walks [slots], the
    keys in the order in which they were first written, [count] slots at a
    time; its cursor is the index of the next slot, and zero once the walk
    is over. *)

Record MiniRedis := {
  strings : gmap string (string * Z);
  hashes : gmap string (gmap string string);
  slots : list string;
  channel : list (string * string);
  broken : list Cmd
}.

(** Patterns: [*] stands for any run of characters, every other character
    for itself. *)
Fixpoint glob (p s : string) : bool :=
  match p with
  | EmptyString =>
      match s with EmptyString => true | _ => false end
  | String c p' =>
      if Ascii.eqb c "*"%char then
        (fix star (s : string) : bool :=
           glob p' s ||
           match s with
           | EmptyString => false
           | String _ s' => star s'
           end) s
      else
        match s with
        | EmptyString => false
        | String d s' => Ascii.eqb c d && glob p' s'
        end
  end.

Definition fails (c : Cmd) (r : MiniRedis) : bool := bool_decide (c ∈ broken r).

Definition io_error : error := "i/o timeout".

Definition with_strings (m : gmap string (string * Z)) (sl : list string)
  (r : MiniRedis) : MiniRedis :=
  {| strings := m; hashes := hashes r; slots := sl; channel := channel r;
     broken := broken r |}.

Definition with_hashes (h : gmap string (gmap string string)) (r : MiniRedis)
  : MiniRedis :=
  {| strings := strings r; hashes := h; slots := slots r;
     channel := channel r; broken := broken r |}.

Definition mini_Get (key : string) (r : MiniRedis) : reply string * MiniRedis :=
  if fails (CmdGet key) r then (Err io_error, r)
  else match strings r !! key with
       | Some (v, _) => (Ok v, r)
       | None => (Err "redis: nil", r)
       end.

Definition mini_Set (key value : string) (expiration : Z) (r : MiniRedis)
  : option error * MiniRedis :=
  if fails (CmdSet key value expiration) r then (Some io_error, r)
  else
    (None,
     with_strings
       (<[key := (value, if 0 <? expiration then expiration else -1)]>
          (strings r))
       (if bool_decide (key ∈ slots r) then slots r else slots r ++ [key])
       r).

Definition mini_Del (key : string) (r : MiniRedis) : reply Z * MiniRedis :=
  if fails (CmdDel key) r then (Err io_error, r)
  else
    (Ok (if bool_decide (is_Some (strings r !! key)) then 1 else 0),
     with_strings (delete key (strings r)) (slots r) r).

Definition mini_TTL (key : string) (r : MiniRedis) : Z * MiniRedis :=
  match strings r !! key with
  | Some (_, d) => (d, r)
  | None => (-2, r)
  end.

Definition mini_Scan (cursor : Z) (pattern : string) (count : Z)
  (r : MiniRedis) : reply (list string * Z) * MiniRedis :=
  if fails (CmdScan cursor pattern count) r then (Err io_error, r)
  else
    let page := take (Z.to_nat count) (drop (Z.to_nat cursor) (slots r)) in
    let live :=
      filter (fun k => bool_decide (is_Some (strings r !! k)) && glob pattern k = true)
        page in
    let next := cursor + count in
    (Ok (live, if next <? Z.of_nat (length (slots r)) then next else 0), r).

Definition mini_HGet (key field : string) (r : MiniRedis)
  : reply string * MiniRedis :=
  if fails (CmdHGet key field) r then (Err io_error, r)
  else match hashes r !! key ≫= (.!! field) with
       | Some v => (Ok v, r)
       | None => (Err "redis: nil", r)
       end.

Definition mini_HSet (key field data : string) (r : MiniRedis)
  : option error * MiniRedis :=
  if fails (CmdHSet key field data) r then (Some io_error, r)
  else
    (None,
     with_hashes
       (<[key := <[field := data]> (default ∅ (hashes r !! key))]> (hashes r))
       r).

(** Redis refuses HDEL without a field. *)
Definition mini_HDel (key : string) (fields : list string) (r : MiniRedis)
  : option error * MiniRedis :=
  if fails (CmdHDel key fields) r then (Some io_error, r)
  else
    match fields with
    | [] => (Some "ERR wrong number of arguments for 'hdel' command", r)
    | _ =>
        (None,
         with_hashes
           (<[key := foldr delete (default ∅ (hashes r !! key)) fields]>
              (hashes r))
           r)
    end.

Definition mini_Publish (chan message : string) (r : MiniRedis)
  : option error * MiniRedis :=
  if fails (CmdPublish chan message) r then (Some io_error, r)
  else
    (None,
     {| strings := strings r; hashes := hashes r; slots := slots r;
        channel := channel r ++ [(chan, message)]; broken := broken r |}).

#[global] Instance MiniRedis_client : RedisClient MiniRedis := {
  redisGet := mini_Get;
  redisSet := mini_Set;
  redisDel := mini_Del;
  redisTTL := mini_TTL;
  redisScan := mini_Scan;
  redisHGet := mini_HGet;
  redisHSet := mini_HSet;
  redisHDel := mini_HDel;
  redisPublish := mini_Publish
}.

(** An empty store, and a store holding the given keys. *)
Definition mini_empty : MiniRedis :=
  {| strings := ∅; hashes := ∅; slots := []; channel := []; broken := [] |}.

Definition mini_put (key value : string) (expiration : Z) (r : MiniRedis)
  : MiniRedis :=
  (mini_Set key value expiration r).2.

Definition mini_break (cs : list Cmd) (r : MiniRedis) : MiniRedis :=
  {| strings := strings r; hashes := hashes r; slots := slots r;
     channel := channel r; broken := cs ++ broken r |}.

(** *** Nodes to run the code on *)

Definition node_A (store : MiniRedis) : Node MiniRedis MemSession :=
  newRedis "127.0.0.1:6379" "" "node-A" store mini_empty.

Definition node_B (store : MiniRedis) : Node MiniRedis MemSession :=
  newRedisCluster "" "node-B" store mini_empty.

(** The node with [s] in its local cache under [key]. *)
Definition cached (key s : string) (ttl : Z) (w : Node MiniRedis MemSession)
  : Node MiniRedis MemSession :=
  (mem_Set key s ttl w).2.

(** A store with the keys user:0 ... user:(n-1), one minute each. *)
Definition users (n : nat) : MiniRedis :=
  foldr (fun i r => mini_put ("user:" +:+ pretty i) "null" (60 * Second) r)
    mini_empty (rev (seq 0 n)).

(** "k" is in the store with a value that does not decode. *)
Definition node_undecodable : Node MiniRedis MemSession :=
  node_A (mini_put "k" "oops" (60 * Second) mini_empty).

(** "k" is in the store with a minute to live. *)
Definition node_minute : Node MiniRedis MemSession :=
  node_A (mini_put "k" "true" (60 * Second) mini_empty).

(** "k" is in the store with three seconds to live. *)
Definition node_short : Node MiniRedis MemSession :=
  node_A (mini_put "k" "true" (3 * Second) mini_empty).

(** "k" is in the store without expiry, as [SetNx] with a lifetime of zero
    leaves it: the TTL command answers -1ns. *)
Definition node_no_expiry : Node MiniRedis MemSession :=
  node_A (mini_put "k" "true" 0 mini_empty).

(** "k" is in the local cache with a value that does not decode. *)
Definition node_corrupt : Node MiniRedis MemSession :=
  cached "k" "{oops" 30
    (node_A (mini_put "k" "true" (60 * Second) mini_empty)).

(** "k" is in the local cache with an older value. *)
Definition node_stale : Node MiniRedis MemSession :=
  cached "k" "false" 10 (node_A mini_empty).

(** The store refuses the write of "k". *)
Definition node_down : Node MiniRedis MemSession :=
  node_A (mini_break [CmdSet "k" "true" (60 * Second)] mini_empty).

(** "k" is in the store and in the local cache, and the store refuses to
    delete it. *)
Definition node_undeletable : Node MiniRedis MemSession :=
  cached "k" "true" 60
    (node_A (mini_break [CmdDel "k"] (mini_put "k" "true" (60 * Second)
                                        mini_empty))).

(** A notice on the wire. *)
Definition wire (p : publisher) : string :=
  default "" (mini_marshal_publisher p).


(** Node B, in cluster mode, holding "k" with an older value, and holding
    it with the current one. *)
Definition node_B_stale : Node MiniRedis MemSession :=
  cached "k" "false" 10 (node_B mini_empty).

Definition node_B_fresh : Node MiniRedis MemSession :=
  cached "k" "true" 60 (node_B mini_empty).

(** The notices of node A for "k" on the wire: an Update and a Delete. *)
Definition update_of_k : string :=
  wire {| From := "node-A"; Act := 1; Key := "k"; Val := "true"; Ttl := 60 |}.

Definition delete_of_k : string :=
  wire {| From := "node-A"; Act := 2; Key := "k"; Val := ""; Ttl := 0 |}.

(** The notices of node B for "k" on the wire. *)
Definition update_of_k_by_B : string :=
  wire {| From := "node-B"; Act := 1; Key := "k"; Val := "true"; Ttl := 30 |}.

Definition delete_of_k_by_B : string :=
  wire {| From := "node-B"; Act := 2; Key := "k"; Val := ""; Ttl := 0 |}.

(** * Properties *)

(** ** Arithmetic of the lifetimes *)

Lemma wrap64_id (z : Z) : in_int64 z -> wrap64 z = z.
Proof.
  unfold in_int64, wrap64.
  change (2 ^ 64) with 18446744073709551616.
  change (2 ^ 63) with 9223372036854775808. intros Hz.
  rewrite Z.mod_small by lia. lia.
Qed.

Lemma duration_to_seconds_bounds (d : Z) :
  in_int64 d -> -9223372036 <= duration_to_seconds d <= 9223372036.
Proof.
  unfold in_int64, duration_to_seconds, Second.
  change (2 ^ 63) with 9223372036854775808. intros Hd.
  pose proof (Z.quot_le_mono d 9223372036854775807 1000000000
                ltac:(lia) ltac:(lia)) as Hhi.
  pose proof (Z.quot_le_mono (-9223372036854775808) d 1000000000
                ltac:(lia) ltac:(lia)) as Hlo.
  change (9223372036854775807 ÷ 1000000000) with 9223372036 in Hhi.
  change (-9223372036854775808 ÷ 1000000000) with (-9223372036) in Hlo.
  lia.
Qed.

(** Five seconds off the store's lifetime never wraps. *)
Lemma early_by_five (d : Z) :
  in_int64 d ->
  int_sub (duration_to_seconds d) 5 = duration_to_seconds d - 5.
Proof.
  intros Hd. unfold int_sub. apply wrap64_id.
  pose proof (duration_to_seconds_bounds d Hd). unfold in_int64.
  change (2 ^ 63) with 9223372036854775808. lia.
Qed.

Lemma lifetime_positive (ttl : Z) : 0 < lifetime ttl.
Proof.
  unfold lifetime, redis_item_timeout.
  destruct (ttl <=? 0) eqn:E; [lia | apply Z.leb_gt in E; lia].
Qed.

Lemma lifetime_default (ttl : Z) : ttl <= 0 -> lifetime ttl = 3600.
Proof.
  intros Hle. unfold lifetime. apply Z.leb_le in Hle. rewrite Hle. reflexivity.
Qed.

(** Lifetimes up to the largest whole number of seconds of a
    [time.Duration] are sent as they are. *)
Lemma seconds_to_duration_exact (ttl : Z) :
  -9223372036 <= ttl <= 9223372036 ->
  seconds_to_duration ttl = 1000000000 * ttl.
Proof.
  intros Ht. unfold seconds_to_duration, int_mul, Second.
  apply wrap64_id. unfold in_int64.
  change (2 ^ 63) with 9223372036854775808. lia.
Qed.

(** One second more and the product wraps to a negative duration. *)
Example seconds_to_duration_wraps : seconds_to_duration 9223372037 < 0.
Proof. vm_compute. reflexivity. Qed.

(** ** The session over any codec, store and cache *)

Section Properties.

Context {Value R M : Type}.
Context {codec : Codec Value} {redis : RedisClient R} {cache : LocalCache M}.

Implicit Types (w : Node R M) (sess : RedisSession R M) (key s : string).
Implicit Types (data v : Value) (ttl d : Z).

(** *** Equations of the definitions *)

Lemma pick_handle {A} (c : Cmd) (op : R -> A * R) w :
  (if cluster (rs w) then on_clusterCLi c op else on_client c op) w
  = on_handle c op w.
Proof.
  unfold on_handle, handle, with_handle, on_clusterCLi, on_client.
  destruct (cluster (rs w)); reflexivity.
Qed.

Lemma mem_with_handle (r : R) sess : mem (with_handle r sess) = mem sess.
Proof. unfold with_handle. destruct (cluster sess); reflexivity. Qed.

Lemma name_with_handle (r : R) sess : name (with_handle r sess) = name sess.
Proof. unfold with_handle. destruct (cluster sess); reflexivity. Qed.

Lemma cluster_with_handle (r : R) sess :
  cluster (with_handle r sess) = cluster sess.
Proof.
  unfold with_handle, with_clusterCLi, with_client.
  destruct (cluster sess) eqn:E; simpl; rewrite ?E; reflexivity.
Qed.

Lemma handle_with_handle (r : R) sess : handle (with_handle r sess) = r.
Proof.
  unfold with_handle, handle, with_clusterCLi, with_client.
  destruct (cluster sess) eqn:E; simpl; rewrite ?E; reflexivity.
Qed.

Lemma with_handle_twice (r r' : R) sess :
  with_handle r' (with_handle r sess) = with_handle r' sess.
Proof.
  unfold with_handle, with_clusterCLi, with_client.
  destruct (cluster sess) eqn:E; simpl; rewrite ?E; reflexivity.
Qed.

Lemma getTtl_eq key w :
  getTtl key w =
  let (d, r) := redisTTL key (handle (rs w)) in
  ((duration_to_seconds d, true),
   {| rs := with_handle r (rs w); spawned := spawned w;
      issued := issued w ++ [(cluster (rs w), CmdTTL key)] |}).
Proof.
  unfold getTtl, bind, self, ret. rewrite pick_handle. unfold on_handle.
  destruct (redisTTL key (handle (rs w))). reflexivity.
Qed.

Lemma Set_eq key data ttl w :
  Set_ key data ttl w =
  match marshal data with
  | None => (false, w)
  | Some s =>
      let (rsp, r) :=
        redisSet key s (seconds_to_duration (lifetime ttl)) (handle (rs w)) in
      let sent :=
        issued w
        ++ [(cluster (rs w),
             CmdSet key s (seconds_to_duration (lifetime ttl)))] in
      match rsp with
      | Some _ =>
          (false,
           {| rs := with_handle r (rs w); spawned := spawned w;
              issued := sent |})
      | None =>
          (true,
           {| rs := with_mem (memSet key s (lifetime ttl) (mem (rs w))).2
                      (with_handle r (rs w));
              spawned :=
                spawned w ++ [go_publish key s (lifetime ttl) redis_sync_set];
              issued := sent |})
      end
  end.
Proof.
  unfold Set_, lifetime. destruct (marshal data) as [s|]; [|reflexivity].
  unfold bind, self, ret. rewrite pick_handle. unfold on_handle.
  destruct (redisSet _ _ _ _) as [[e|] r]; [reflexivity|].
  unfold mem_Set, go. cbn [rs spawned issued]. rewrite mem_with_handle.
  destruct (memSet _ _ _ _). reflexivity.
Qed.

Lemma Delete_eq key w :
  Delete key w =
  (true,
   {| rs := with_mem (memDelete key (mem (rs w)))
              (with_handle (redisDel key (handle (rs w))).2 (rs w));
      spawned := spawned w ++ [go_publish key "" 0 redis_sync_del];
      issued := issued w ++ [(cluster (rs w), CmdDel key)] |}).
Proof.
  unfold Delete, bind, self, ret. rewrite pick_handle. unfold on_handle.
  destruct (redisDel key (handle (rs w))) as [rsp r].
  unfold mem_Delete, go. cbn [rs spawned issued snd].
  rewrite mem_with_handle. reflexivity.
Qed.

Lemma Get_at_eq key w :
  Get_at key w =
  match memGet key (mem (rs w)) with
  | Some s =>
      match unmarshal s with
      | None => ((ret_mem_decode, (false, None)), w)
      | Some v => ((ret_mem_hit, (true, Some v)), w)
      end
  | None =>
      let (str, r1) := redisGet key (handle (rs w)) in
      match str with
      | Err _ =>
          ((ret_store_err, (false, None)),
           {| rs := with_handle r1 (rs w); spawned := spawned w;
              issued := issued w ++ [(cluster (rs w), CmdGet key)] |})
      | Ok s =>
          let (d, r2) := redisTTL key r1 in
          let sent :=
            (issued w ++ [(cluster (rs w), CmdGet key)])
            ++ [(cluster (rs w), CmdTTL key)] in
          match unmarshal s with
          | None =>
              ((ret_store_decode, (false, None)),
               {| rs := with_handle r2 (rs w); spawned := spawned w;
                  issued := sent |})
          | Some v =>
              let (b, m) :=
                memSet key s (int_sub (duration_to_seconds d) 5)
                  (mem (rs w)) in
              ((ret_repopulated, (b, Some v)),
               {| rs := with_mem m (with_handle r2 (rs w));
                  spawned := spawned w; issued := sent |})
          end
      end
  end.
Proof.
  unfold Get_at, bind, mem_Get, self, ret.
  destruct (memGet key (mem (rs w))) as [s|].
  - destruct (unmarshal s); reflexivity.
  - rewrite pick_handle. unfold on_handle.
    destruct (redisGet key (handle (rs w))) as [[s|e] r1]; [|reflexivity].
    rewrite getTtl_eq. cbn [rs spawned issued].
    rewrite handle_with_handle, cluster_with_handle.
    destruct (redisTTL key r1) as [d r2]. rewrite with_handle_twice.
    destruct (unmarshal s) as [v|]; [|reflexivity].
    unfold mem_Set. cbn [rs spawned issued]. rewrite !mem_with_handle.
    destruct (memSet _ _ _ _). reflexivity.
Qed.

Lemma Get_eq key w :
  Get key w = ((Get_at key w).1.2, (Get_at key w).2).
Proof.
  unfold Get, bind, ret. destruct (Get_at key w) as [[? ?] ?]. reflexivity.
Qed.

Lemma publish_eq key val ttl act w :
  publish key val ttl act w =
  match marshal_publisher {| From := name (rs w); Act := act; Key := key;
                             Val := val; Ttl := ttl |} with
  | None => (tt, w)
  | Some s =>
      (tt,
       {| rs := with_handle (redisPublish redis_sync_chan s (handle (rs w))).2
                  (rs w);
          spawned := spawned w;
          issued :=
            issued w ++ [(cluster (rs w), CmdPublish redis_sync_chan s)] |})
  end.
Proof.
  unfold publish, bind, self, ret.
  destruct (marshal_publisher _) as [s|]; [|reflexivity].
  rewrite pick_handle. unfold on_handle.
  destruct (redisPublish _ _ _). reflexivity.
Qed.

(** A started [publish] sends the notice it was started for. *)
Lemma run_publish_sends (g : goroutine) (p : publisher) s chn w :
  notice_of g (rs w) = Some p ->
  marshal_publisher p = Some s ->
  issued (run g chn w).2
  = issued w ++ [(cluster (rs w), CmdPublish redis_sync_chan s)].
Proof.
  destruct g as [key val ttl act|]; [|discriminate].
  intros [= <-] Hs. unfold run. rewrite publish_eq, Hs. reflexivity.
Qed.

(** *** The write path *)

(** C2.  When the value does not serialize, [Set] returns false and the
    node is as it was.  When the write to the store fails, [Set] returns
    false, the local cache is as it was, no [publish] was started, and the
    one command sent is the write.  When both succeed, [Set] returns
    true. *)
Theorem Set_failure_is_silent key data ttl w :
  (marshal data = None -> Set_ key data ttl w = (false, w)) /\
  (forall s e r,
      marshal data = Some s ->
      redisSet key s (seconds_to_duration (lifetime ttl)) (handle (rs w))
      = (Some e, r) ->
      (Set_ key data ttl w).1 = false /\
      mem (rs (Set_ key data ttl w).2) = mem (rs w) /\
      spawned (Set_ key data ttl w).2 = spawned w /\
      issued (Set_ key data ttl w).2
      = issued w ++ [(cluster (rs w),
                      CmdSet key s (seconds_to_duration (lifetime ttl)))]) /\
  (forall s r,
      marshal data = Some s ->
      redisSet key s (seconds_to_duration (lifetime ttl)) (handle (rs w))
      = (None, r) ->
      (Set_ key data ttl w).1 = true).
Proof.
  rewrite Set_eq. split; [|split].
  - intros ->. reflexivity.
  - intros s e r -> ->. cbn [fst snd rs spawned issued].
    rewrite mem_with_handle. repeat split.
  - intros s r -> ->. reflexivity.
Qed.

(** C7.  A lifetime of zero or less is replaced by one hour before the
    write: the command sent to the store, and the write the handle
    performs, carry 3600 seconds, a positive [time.Duration]. *)
Theorem Set_defaults_to_one_hour key data ttl w s :
  ttl <= 0 ->
  marshal data = Some s ->
  redis_item_timeout = 3600 /\
  seconds_to_duration redis_item_timeout = 3600 * Second /\
  0 < seconds_to_duration redis_item_timeout /\
  issued (Set_ key data ttl w).2
  = issued w ++ [(cluster (rs w),
                  CmdSet key s (seconds_to_duration redis_item_timeout))] /\
  handle (rs (Set_ key data ttl w).2)
  = (redisSet key s (seconds_to_duration redis_item_timeout)
       (handle (rs w))).2.
Proof.
  intros Hle Hs.
  split; [reflexivity|]. split; [reflexivity|]. split; [reflexivity|].
  rewrite Set_eq, Hs. rewrite (lifetime_default ttl Hle).
  change 3600 with redis_item_timeout.
  destruct (redisSet _ _ _ _) as [[e|] r]; cbn [snd rs issued].
  - split; [reflexivity|]. apply handle_with_handle.
  - split; [reflexivity|].
    unfold handle, with_mem. cbn [cluster clusterCLi client].
    fold (handle (with_handle r (rs w))).
    rewrite <- (handle_with_handle r (rs w)) at 2.
    unfold handle. rewrite cluster_with_handle. reflexivity.
Qed.


(** *** The read path *)

(** C8.  A cached value that does not decode makes [Get] return false,
    with nothing decoded and the node as it was. *)
Theorem Get_corrupt_entry_is_a_miss key s w :
  memGet key (mem (rs w)) = Some s ->
  unmarshal s = None ->
  Get key w = ((false, None), w) /\
  (Get_at key w).1.1 = ret_mem_decode.
Proof.
  intros Hs Hu. rewrite Get_eq, Get_at_eq, Hs, Hu. split; reflexivity.
Qed.

(** C3.  When [Set] returns true it has put the serialized value into the
    local cache with the lifetime it wrote to the store; so, with a codec
    that decodes what it encodes and a cache that finds what was just
    stored, the [Get] that follows returns true and the value that was
    set, from the local cache, and leaves the node alone. *)
Theorem Set_then_Get key v ttl w w' :
  Set_ key v ttl w = (true, w') ->
  (exists s,
      marshal v = Some s /\
      mem (rs w') = (memSet key s (lifetime ttl) (mem (rs w))).2) /\
  (json_roundtrip Value ->
   set_then_get M ->
   Get key w' = ((true, Some v), w') /\
   (Get_at key w').1.1 = ret_mem_hit).
Proof.
  rewrite Set_eq.
  destruct (marshal v) as [s|] eqn:Hs; [|discriminate].
  destruct (redisSet _ _ _ _) as [[e|] r]; [discriminate|].
  intros [= <-].
  match goal with |- context [Get key ?n] => set (w' := n) end.
  assert (Hmem : mem (rs w')
                 = (memSet key s (lifetime ttl) (mem (rs w))).2).
  { subst w'. cbn [rs]. unfold with_mem. cbn [mem]. reflexivity. }
  split; [exists s; split; [reflexivity|exact Hmem]|].
  intros Hjson Hcache.
  assert (Hm : memGet key (mem (rs w')) = Some s).
  { rewrite Hmem. apply Hcache, lifetime_positive. }
  assert (HG : Get_at key w' = ((ret_mem_hit, (true, Some v)), w')).
  { rewrite Get_at_eq, Hm, (Hjson v s Hs). reflexivity. }
  rewrite Get_eq, HG. split; reflexivity.
Qed.

(** A value fetched from the store that decodes goes into the local cache
    with the store's lifetime less five seconds, whatever that lifetime is,
    and [Get] hands back what the cache's [Set] hands back. *)
Lemma Get_fills_from_store key w s v r1 d r2 :
  memGet key (mem (rs w)) = None ->
  redisGet key (handle (rs w)) = (Ok s, r1) ->
  redisTTL key r1 = (d, r2) ->
  in_int64 d ->
  unmarshal s = Some v ->
  (Get_at key w).1.1 = ret_repopulated /\
  (Get key w).1
  = ((memSet key s (duration_to_seconds d - 5) (mem (rs w))).1, Some v) /\
  mem (rs (Get key w).2)
  = (memSet key s (duration_to_seconds d - 5) (mem (rs w))).2.
Proof.
  intros Hmiss Hget Httl Hd Hv.
  rewrite Get_eq, Get_at_eq, Hmiss, Hget, Httl, Hv.
  rewrite (early_by_five d Hd).
  destruct (memSet _ _ _ _) as [b m]. cbn [fst snd rs].
  repeat split.
Qed.

(** C9, as amended.  [getTtl] answers true whatever the store reports,
    so [Get] never leaves through the [return false] that follows the
    test of that answer; and a value fetched from the store that decodes
    is put into the local cache with the store's lifetime less five
    seconds, whatever the sign of that lifetime, the result of [Get] being
    the result of that [Set]. *)
Theorem getTtl_never_refuses key w :
  (getTtl key w).1.2 = true /\
  (Get_at key w).1.1 <> ret_no_ttl /\
  (forall s v r1 d r2,
      memGet key (mem (rs w)) = None ->
      redisGet key (handle (rs w)) = (Ok s, r1) ->
      redisTTL key r1 = (d, r2) ->
      in_int64 d ->
      unmarshal s = Some v ->
      (Get_at key w).1.1 = ret_repopulated /\
      (Get key w).1
      = ((memSet key s (duration_to_seconds d - 5) (mem (rs w))).1, Some v) /\
      mem (rs (Get key w).2)
      = (memSet key s (duration_to_seconds d - 5) (mem (rs w))).2).
Proof.
  split; [|split].
  - rewrite getTtl_eq. destruct (redisTTL _ _). reflexivity.
  - rewrite Get_at_eq.
    destruct (memGet key (mem (rs w))) as [s|].
    + destruct (unmarshal s); discriminate.
    + destruct (redisGet _ _) as [[s|e] r1]; [|discriminate].
      destruct (redisTTL _ _) as [d r2].
      destruct (unmarshal s); [|discriminate].
      destruct (memSet _ _ _ _). discriminate.
  - intros s v r1 d r2. apply Get_fills_from_store.
Qed.

(** *** The hash accessors *)

(** [HDel] sends the hash delete for the key with no field at all on
    whichever handle the session uses: the command is the same in cluster
    mode and in single-endpoint mode, and [field] has no part in it. *)
Lemma HDel_sends_no_field key field w :
  HDel key field w = on_handle (CmdHDel key []) (redisHDel key []) w /\
  issued (HDel key field w).2
  = issued w ++ [(cluster (rs w), CmdHDel key [])] /\
  (forall field', HDel key field' w = HDel key field w).
Proof.
  assert (E : forall f, HDel key f w
                        = on_handle (CmdHDel key []) (redisHDel key []) w).
  { intros f. unfold HDel, bind, self. apply pick_handle. }
  split; [apply E|]. split.
  - rewrite E. unfold on_handle. destruct (redisHDel _ _ _). reflexivity.
  - intros f. rewrite !E. reflexivity.
Qed.

(** *** The listener *)

Lemma on_message_eq payload (pub : publisher) w :
  on_message payload pub w =
  let (p, ok) := unmarshal_publisher payload pub in
  if ok && negb (String.eqb (From p) (name (rs w))) then
    if Act p =? redis_sync_set then
      (p, {| rs := with_mem (memSet (Key p) (Val p) (Ttl p) (mem (rs w))).2
                     (rs w);
             spawned := spawned w; issued := issued w |})
    else if Act p =? redis_sync_del then
      (p, {| rs := with_mem (memDelete (Key p) (mem (rs w))) (rs w);
             spawned := spawned w; issued := issued w |})
    else (p, w)
  else (p, w).
Proof.
  unfold on_message. destruct (unmarshal_publisher payload pub) as [p ok].
  destruct ok; [|reflexivity].
  unfold bind, self, ret. cbn [andb].
  destruct (negb (String.eqb (From p) (name (rs w)))); [|reflexivity].
  destruct (Act p =? redis_sync_set).
  - unfold mem_Set. destruct (memSet _ _ _ _). reflexivity.
  - destruct (Act p =? redis_sync_del); reflexivity.
Qed.

(** What the body of the loop does with a message that decodes to notice
    [p]. *)
Lemma on_message_rule payload (pub p : publisher) w :
  unmarshal_publisher payload pub = (p, true) ->
  (From p = name (rs w) -> on_message payload pub w = (p, w)) /\
  (From p <> name (rs w) -> Act p = redis_sync_set ->
   on_message payload pub w
   = (p, {| rs := with_mem (memSet (Key p) (Val p) (Ttl p) (mem (rs w))).2
                    (rs w);
            spawned := spawned w; issued := issued w |})) /\
  (From p <> name (rs w) -> Act p = redis_sync_del ->
   on_message payload pub w
   = (p, {| rs := with_mem (memDelete (Key p) (mem (rs w))) (rs w);
            spawned := spawned w; issued := issued w |})).
Proof.
  intros Hp. rewrite on_message_eq, Hp. cbn [andb]. split; [|split].
  - intros ->. rewrite String.eqb_refl. reflexivity.
  - intros Hne ->.
    apply String.eqb_neq in Hne. rewrite Hne. reflexivity.
  - intros Hne ->.
    apply String.eqb_neq in Hne. rewrite Hne. reflexivity.
Qed.

Lemma on_message_pub payload (pub : publisher) w :
  (on_message payload pub w).1 = (unmarshal_publisher payload pub).1.
Proof.
  rewrite on_message_eq. destruct (unmarshal_publisher payload pub) as [p ok].
  destruct (ok && _); [|reflexivity].
  destruct (Act p =? redis_sync_set); [reflexivity|].
  destruct (Act p =? redis_sync_del); reflexivity.
Qed.

Lemma on_message_name payload (pub : publisher) w :
  name (rs (on_message payload pub w).2) = name (rs w).
Proof.
  rewrite on_message_eq. destruct (unmarshal_publisher payload pub) as [p ok].
  destruct (ok && _); [|reflexivity].
  destruct (Act p =? redis_sync_set); [reflexivity|].
  destruct (Act p =? redis_sync_del); reflexivity.
Qed.

Lemma listen_name chn (pub : publisher) w :
  name (rs (listen chn pub w).2) = name (rs w).
Proof.
  revert pub w. induction chn as [|msg more IH]; intros pub w.
  - reflexivity.
  - cbn [listen]. unfold bind.
    pose proof (on_message_name msg pub w) as Hn.
    destruct (on_message msg pub w) as [pub' w1]. cbn [snd] in Hn.
    rewrite IH. exact Hn.
Qed.

(** The listener handles a message after the others: in the node they
    left, and decoding into the struct they left. *)
Lemma listen_snoc chn msg (pub : publisher) w :
  (listen (chn ++ [msg]) pub w).2
  = (on_message msg (pub_after chn pub) (listen chn pub w).2).2.
Proof.
  revert pub w. induction chn as [|m more IH]; intros pub w.
  - cbn [app listen pub_after foldl]. unfold bind, ret. cbn [snd].
    destruct (on_message msg pub w). reflexivity.
  - cbn [app listen]. unfold bind.
    pose proof (on_message_pub m pub w) as Hpub.
    destruct (on_message m pub w) as [pub' w1]. cbn [fst] in Hpub.
    rewrite IH. unfold pub_after. cbn [foldl]. rewrite Hpub. reflexivity.
Qed.

Lemma with_handle_same sess : with_handle (handle sess) sess = sess.
Proof.
  destruct sess as [c cc i pw n m cl].
  unfold with_handle, handle, with_clusterCLi, with_client.
  destruct cl; reflexivity.
Qed.

(** The listener subscribes on the handle of its topology, then handles
    what the channel delivers. *)
Lemma subscribe_eq chn w :
  subscribe chn w
  = listen chn publisher_zero
      {| rs := rs w; spawned := spawned w;
         issued := issued w
                   ++ [(cluster (rs w), CmdSubscribe redis_sync_chan)] |}.
Proof.
  unfold subscribe, bind, self. rewrite pick_handle. unfold on_handle.
  rewrite with_handle_same. reflexivity.
Qed.

(** C4.  The listener, having handled the messages [chn], receives one
    more that decodes to notice [p].  When [p] comes from this node, the
    listener leaves the node as it was; when it comes from another node, an
    Update notice is stored in the local cache with the key, value and
    lifetime of the notice, and a Delete notice removes the key from the
    local cache; nothing else changes. *)
Theorem listener_skips_own_notices chn msg (p : publisher) w :
  unmarshal_publisher msg (pub_after chn publisher_zero) = (p, true) ->
  (From p = name (rs w) ->
   (subscribe (chn ++ [msg]) w).2 = (subscribe chn w).2) /\
  (From p <> name (rs w) -> Act p = redis_sync_set ->
   (subscribe (chn ++ [msg]) w).2
   = {| rs := with_mem
                (memSet (Key p) (Val p) (Ttl p)
                   (mem (rs (subscribe chn w).2))).2
                (rs (subscribe chn w).2);
        spawned := spawned (subscribe chn w).2;
        issued := issued (subscribe chn w).2 |}) /\
  (From p <> name (rs w) -> Act p = redis_sync_del ->
   (subscribe (chn ++ [msg]) w).2
   = {| rs := with_mem
                (memDelete (Key p) (mem (rs (subscribe chn w).2)))
                (rs (subscribe chn w).2);
        spawned := spawned (subscribe chn w).2;
        issued := issued (subscribe chn w).2 |}).
Proof.
  intros Hp. rewrite !subscribe_eq, listen_snoc.
  match goal with |- context [listen chn publisher_zero ?n] =>
    set (before := (listen chn publisher_zero n).2);
    assert (Hname : name (rs before) = name (rs w))
      by (subst before; rewrite listen_name; reflexivity)
  end.
  destruct (on_message_rule msg _ p before Hp) as (Hown & Hset & Hdel).
  rewrite <- Hname. split; [|split].
  - intros Hf. rewrite (Hown Hf). reflexivity.
  - intros Hf Ha. rewrite (Hset Hf Ha). reflexivity.
  - intros Hf Ha. rewrite (Hdel Hf Ha). reflexivity.
Qed.

(** Over a whole run of the listener: messages that all decode to notices
    of this node leave the node as it was. *)
Lemma listen_to_own_notices chn (pub : publisher) w :
  Forall (fun msg => forall pub0,
              From (unmarshal_publisher msg pub0).1 = name (rs w)) chn ->
  listen chn pub w = (tt, w).
Proof.
  intros Hall. revert pub. induction Hall as [|msg chn Hmsg _ IH]; intros pub.
  - reflexivity.
  - cbn [listen]. unfold bind. rewrite on_message_eq.
    specialize (Hmsg pub).
    destruct (unmarshal_publisher msg pub) as [p ok]. cbn [fst] in Hmsg.
    rewrite Hmsg, String.eqb_refl, andb_false_r. apply IH.
Qed.

(** *** ScanDelete *)

Lemma on_handle_frame {A} (c : Cmd) (op : R -> A * R) w :
  cluster (rs (on_handle c op w).2) = cluster (rs w) /\
  mem (rs (on_handle c op w).2) = mem (rs w) /\
  spawned (on_handle c op w).2 = spawned w /\
  issued (on_handle c op w).2 = issued w ++ [(cluster (rs w), c)].
Proof.
  unfold on_handle. destruct (op (handle (rs w))) as [a r].
  cbn [snd rs spawned issued].
  rewrite cluster_with_handle, mem_with_handle. repeat split.
Qed.

Lemma del_keys_cons (k : string) rest w :
  del_keys (k :: rest) w =
  let (r, w1) := on_handle (CmdDel k) (redisDel k) w in
  match r with
  | Err e => (Some e, w1)
  | Ok _ => del_keys rest w1
  end.
Proof.
  cbn [del_keys]. unfold bind, self. rewrite pick_handle.
  destruct (on_handle _ _ w) as [[z|e] w1]; reflexivity.
Qed.

Lemma ScanDelete_from_S fuel key c n w :
  ScanDelete_from (S fuel) key c n w =
  let (r, w1) := on_handle (CmdScan c key 100) (redisScan c key 100) w in
  match r with
  | Err e => (Some (0, Some e), w1)
  | Ok (keys, c') =>
      let n' := int_add n (Z.of_nat (length keys)) in
      let (e, w2) := del_keys keys w1 in
      match e with
      | Some e => (Some (n', Some e), w2)
      | None =>
          if c' =? 0 then (Some (n', None), w2)
          else ScanDelete_from fuel key c' n' w2
      end
  end.
Proof.
  cbn [ScanDelete_from]. unfold bind, self. rewrite pick_handle.
  destruct (on_handle _ _ w) as [[[keys c']|e] w1]; [|reflexivity].
  destruct (del_keys keys w1) as [[e|] w2]; [reflexivity|].
  unfold ret. destruct (c' =? 0); reflexivity.
Qed.

(** The deletes of a page that goes through: one command per key, in
    order, and nothing else changes. *)
Lemma del_keys_all keys w w' :
  del_keys keys w = (None, w') ->
  issued w' = issued w ++ map (fun k => (cluster (rs w), CmdDel k)) keys /\
  cluster (rs w') = cluster (rs w) /\
  mem (rs w') = mem (rs w) /\
  spawned w' = spawned w.
Proof.
  revert w. induction keys as [|k0 rest IH]; intros w.
  - intros [= <-]. cbn [map]. rewrite app_nil_r. repeat split.
  - rewrite del_keys_cons.
    pose proof (on_handle_frame (CmdDel k0) (redisDel k0) w) as (Hc & Hm & Hs & Hi).
    destruct (on_handle _ _ w) as [[z|e] w1]; [|discriminate].
    cbn [snd] in Hc, Hm, Hs, Hi. intros Hrest.
    destruct (IH w1 Hrest) as (Hi' & Hc' & Hm' & Hs').
    rewrite Hi', Hc', Hm', Hs', Hi, Hc, Hm, Hs.
    cbn [map]. rewrite <- app_assoc. repeat split.
Qed.

(** The deletes of a page that does not go through: the keys before the
    failing one are deleted, and the failing delete is the last command
    sent. *)
Lemma del_keys_stops keys w e w' :
  del_keys keys w = (Some e, w') ->
  exists done k rest wm,
    keys = done ++ k :: rest /\
    del_keys done w = (None, wm) /\
    on_handle (CmdDel k) (redisDel k) wm = (Err e, w').
Proof.
  revert w. induction keys as [|k0 rest IH]; intros w.
  - discriminate.
  - rewrite del_keys_cons.
    destruct (on_handle _ _ w) as [[z|e'] w1] eqn:Hv.
    + intros Hrest. destruct (IH w1 Hrest) as (done & k & rest' & wm & -> & Hd & Hk).
      exists (k0 :: done), k, rest', wm. split; [reflexivity|]. split; [|exact Hk].
      rewrite del_keys_cons, Hv. exact Hd.
    + intros [= <- <-]. exists [], k0, rest, w. repeat split. exact Hv.
Qed.

Lemma scanned_app n (pages more : list (Z * list string)) :
  scanned n (pages ++ more) = scanned (scanned n pages) more.
Proof. unfold scanned. apply foldl_app. Qed.

Lemma scanned_from n (pages : list (Z * list string)) :
  0 <= n -> in_int64 (n + total pages) -> scanned n pages = n + total pages.
Proof.
  unfold total, in_int64. revert n.
  induction pages as [|[c keys] pages IH]; intros n Hn Hr.
  - cbn. lia.
  - cbn [map snd concat] in Hr. rewrite length_app, Nat2Z.inj_add in Hr.
    cbn [scanned foldl snd]. fold (scanned (int_add n (Z.of_nat (length keys))) pages).
    unfold int_add. rewrite wrap64_id by (unfold in_int64; lia).
    rewrite IH by lia. cbn [map snd concat].
    rewrite length_app, Nat2Z.inj_add. lia.
Qed.

(** What the rounds send: scan and deletes, page after page, each scan at
    the cursor the one before handed back; the local cache and the started
    calls are left alone. *)
Lemma rounds_issued key w c pages w' c' :
  rounds key w c pages w' c' ->
  issued w' = issued w ++ commands (cluster (rs w)) key pages /\
  cluster (rs w') = cluster (rs w) /\
  mem (rs w') = mem (rs w) /\
  spawned w' = spawned w.
Proof.
  induction 1 as [|w c keys c1 w1 w2 pages w3 c3 Hscan Hdel Hc _ IH].
  - unfold commands. cbn. rewrite app_nil_r. repeat split.
  - pose proof (on_handle_frame (CmdScan c key 100) (redisScan c key 100) w)
      as (Hc1 & Hm1 & Hs1 & Hi1).
    rewrite Hscan in Hc1, Hm1, Hs1, Hi1. cbn [snd] in Hc1, Hm1, Hs1, Hi1.
    destruct (del_keys_all keys w1 w2 Hdel) as (Hi2 & Hc2 & Hm2 & Hs2).
    destruct IH as (Hi3 & Hc3 & Hm3 & Hs3).
    rewrite Hi3, Hc3, Hm3, Hs3, Hi2, Hc2, Hm2, Hs2, Hi1, Hc1, Hm1, Hs1.
    unfold commands. cbn [map concat fst snd].
    rewrite <- !app_assoc. repeat split.
Qed.

(** On a store that honours the count no page has more than 100 keys. *)
Lemma rounds_pages_within_count key w c pages w' c' :
  honours_count R ->
  rounds key w c pages w' c' ->
  Forall (fun p => (length p.2 <= 100)%nat) pages.
Proof.
  intros Hcount.
  induction 1 as [|w c keys c1 w1 w2 pages w3 c3 Hscan Hdel Hc _ IH];
    constructor; [|exact IH].
  unfold on_handle in Hscan.
  destruct (redisScan c key 100 (handle (rs w))) as [rep r] eqn:Hrep.
  injection Hscan as -> _.
  assert (H100 : 0 <= 100) by lia.
  pose proof (Hcount _ _ _ _ _ _ _ H100 Hrep). cbn [snd]. lia.
Qed.

(** Rounds that go through use up one unit of fuel each. *)
Lemma ScanDelete_from_rounds key w c pages w1 c1 :
  rounds key w c pages w1 c1 ->
  forall fuel n,
    ScanDelete_from (length pages + fuel) key c n w
    = ScanDelete_from fuel key c1 (scanned n pages) w1.
Proof.
  induction 1 as [|w c keys c1 w1 w2 pages w3 c3 Hscan Hdel Hc _ IH];
    intros fuel n.
  - reflexivity.
  - cbn [length Nat.add]. rewrite ScanDelete_from_S, Hscan, Hdel.
    apply Z.eqb_neq in Hc. rewrite Hc.
    rewrite IH. reflexivity.
Qed.

(** While the cursor is not zero the loop goes on. *)
Lemma ScanDelete_still_running key w pages w1 c :
  rounds key w 0 pages w1 c ->
  ScanDelete (length pages) key w = (None, w1).
Proof.
  intros Hr. unfold ScanDelete.
  rewrite <- (Nat.add_0_r (length pages)).
  rewrite (ScanDelete_from_rounds _ _ _ _ _ _ Hr). reflexivity.
Qed.

(** What [ScanDelete] hands back when a delete fails: the keys scanned so
    far, the whole of the current page included. *)
Lemma ScanDelete_delete_failure fuel key w pages w1 c keys c' w2 e w3 :
  rounds key w 0 pages w1 c ->
  (length pages < fuel)%nat ->
  on_handle (CmdScan c key 100) (redisScan c key 100) w1
  = (Ok (keys, c'), w2) ->
  del_keys keys w2 = (Some e, w3) ->
  ScanDelete fuel key w
  = (Some (scanned 0 (pages ++ [(c, keys)]), Some e), w3).
Proof.
  intros Hr Hfuel Hscan Hdel. unfold ScanDelete.
  replace fuel with (length pages + S (fuel - S (length pages)))%nat by lia.
  rewrite (ScanDelete_from_rounds _ _ _ _ _ _ Hr).
  rewrite ScanDelete_from_S, Hscan, Hdel, scanned_app. reflexivity.
Qed.

(** Every run that ends is made of rounds that went through and one last
    round of one of three kinds: a scan that fails, a delete that fails, or
    a page whose deletes go through and whose cursor is zero. *)
Lemma ScanDelete_from_ends fuel key c n w res w' :
  ScanDelete_from fuel key c n w = (Some res, w') ->
  exists pages w1 c1,
    rounds key w c pages w1 c1 /\
    (length pages < fuel)%nat /\
    ((exists e,
         on_handle (CmdScan c1 key 100) (redisScan c1 key 100) w1
         = (Err e, w') /\
         res = (0, Some e)) \/
     (exists keys c2 w2 e,
         on_handle (CmdScan c1 key 100) (redisScan c1 key 100) w1
         = (Ok (keys, c2), w2) /\
         del_keys keys w2 = (Some e, w') /\
         res = (scanned n (pages ++ [(c1, keys)]), Some e)) \/
     (exists keys w2,
         on_handle (CmdScan c1 key 100) (redisScan c1 key 100) w1
         = (Ok (keys, 0), w2) /\
         del_keys keys w2 = (None, w') /\
         res = (scanned n (pages ++ [(c1, keys)]), None))).
Proof.
  revert c n w. induction fuel as [|fuel IH]; intros c n w; [discriminate|].
  rewrite ScanDelete_from_S.
  destruct (on_handle _ _ w) as [[[keys c2]|e] w2] eqn:Hscan.
  - destruct (del_keys keys w2) as [[e|] w3] eqn:Hdel.
    + intros [= <- <-]. exists [], w, c.
      split; [constructor|]. split; [cbn; lia|].
      right; left. exists keys, c2, w2, e. repeat split; assumption.
    + destruct (c2 =? 0) eqn:Hc.
      * apply Z.eqb_eq in Hc. subst c2. intros [= <- <-]. exists [], w, c.
        split; [constructor|]. split; [cbn; lia|].
        right; right. exists keys, w2. repeat split; assumption.
      * intros Hrest. apply Z.eqb_neq in Hc.
        destruct (IH _ _ _ Hrest) as (pages & w1 & c1 & Hr & Hlen & Hlast).
        exists ((c, keys) :: pages), w1, c1.
        split; [exact (rounds_more key w c keys c2 w2 w3 pages w1 c1
                         Hscan Hdel Hc Hr)|].
        split; [cbn; lia|]. exact Hlast.
  - intros [= <- <-]. exists [], w, c.
    split; [constructor|]. split; [cbn; lia|].
    left. exists e. split; [assumption|reflexivity].
Qed.

(** C5, as amended.  After rounds that went through, with fuel left for
    one more: a scan that fails ends [ScanDelete] with 0 and the error; a
    delete that fails ends it with the error, nothing being sent after
    the failing delete; and a page whose deletes go through and whose
    cursor is zero ends it with no error and the number of keys on all
    the pages. *)
Theorem ScanDelete_by_rounds fuel key w pages w1 c :
  rounds key w 0 pages w1 c ->
  (length pages < fuel)%nat ->
  (forall e w2,
      on_handle (CmdScan c key 100) (redisScan c key 100) w1 = (Err e, w2) ->
      ScanDelete fuel key w = (Some (0, Some e), w2)) /\
  (forall keys c' w2 e w3,
      on_handle (CmdScan c key 100) (redisScan c key 100) w1
      = (Ok (keys, c'), w2) ->
      del_keys keys w2 = (Some e, w3) ->
      (exists n, ScanDelete fuel key w = (Some (n, Some e), w3)) /\
      (exists done k rest wm,
          keys = done ++ k :: rest /\
          del_keys done w2 = (None, wm) /\
          on_handle (CmdDel k) (redisDel k) wm = (Err e, w3))) /\
  (forall keys w2 w3,
      on_handle (CmdScan c key 100) (redisScan c key 100) w1
      = (Ok (keys, 0), w2) ->
      del_keys keys w2 = (None, w3) ->
      ScanDelete fuel key w
      = (Some (scanned 0 (pages ++ [(c, keys)]), None), w3) /\
      (in_int64 (total (pages ++ [(c, keys)])) ->
       scanned 0 (pages ++ [(c, keys)]) = total (pages ++ [(c, keys)]))).
Proof.
  intros Hr Hfuel.
  assert (Hgo : forall n,
             ScanDelete_from fuel key 0 n w
             = ScanDelete_from (S (fuel - S (length pages))) key c
                 (scanned n pages) w1).
  { intros n.
    replace fuel with (length pages + S (fuel - S (length pages)))%nat
      at 1 by lia.
    apply (ScanDelete_from_rounds _ _ _ _ _ _ Hr). }
  split; [|split].
  - intros e w2 Hscan. unfold ScanDelete.
    rewrite Hgo, ScanDelete_from_S, Hscan. reflexivity.
  - intros keys c' w2 e w3 Hscan Hdel. split.
    + eexists. apply (ScanDelete_delete_failure _ _ _ _ _ _ _ _ _ _ _ Hr Hfuel Hscan Hdel).
    + apply del_keys_stops. exact Hdel.
  - intros keys w2 w3 Hscan Hdel. split.
    + unfold ScanDelete.
      rewrite Hgo, ScanDelete_from_S, Hscan, Hdel, scanned_app. reflexivity.
    + intros Hrange. rewrite scanned_from; [lia|lia|].
      rewrite Z.add_0_l. exact Hrange.
Qed.

(** [play] computes rounds. *)
Lemma play_rounds fuel key c w :
  rounds key w c (play fuel key c w).1.1 (play fuel key c w).1.2
    (play fuel key c w).2.
Proof.
  revert c w. induction fuel as [|fuel IH]; intros c w; cbn [play].
  - constructor.
  - destruct (on_handle _ _ w) as [[[keys c1]|e] w1] eqn:Hscan;
      [|constructor].
    destruct (del_keys keys w1) as [[e|] w2] eqn:Hdel; [constructor|].
    destruct (c1 =? 0) eqn:Hc; [constructor|].
    specialize (IH c1 w2).
    destruct (play fuel key c1 w2) as [[pages w3] c3]. cbn [fst snd] in *.
    apply Z.eqb_neq in Hc.
    exact (rounds_more key w c keys c1 w1 w2 pages w3 c3 Hscan Hdel Hc IH).
Qed.

End Properties.

(** * What the session keeps, and what its operations never do *)

Section Coverage.

Context {Value R M : Type}.
Context {codec : Codec Value} {redis : RedisClient R} {cache : LocalCache M}.

Implicit Types (w : Node R M) (sess : RedisSession R M) (key s : string).
Implicit Types (data v : Value) (ttl d : Z).

Lemma Get_local key s v w :
  memGet key (mem (rs w)) = Some s ->
  unmarshal s = Some v ->
  Get key w = ((true, Some v), w).
Proof.
  intros Hs Hv.
  assert (HG : Get_at key w = ((ret_mem_hit, (true, Some v)), w)).
  { rewrite Get_at_eq, Hs, Hv. reflexivity. }
  rewrite Get_eq, HG. reflexivity.
Qed.

(** ** The session is kept *)

Lemma kept_refl w : kept w w.
Proof.
  split; try reflexivity.
  - exists []. rewrite app_nil_r. split; [reflexivity|constructor].
  - exists []. rewrite app_nil_r. reflexivity.
Qed.

Lemma kept_trans w1 w2 w3 : kept w1 w2 -> kept w2 w3 -> kept w1 w3.
Proof.
  intros [Hn Hc Hi Hp Hs (cmds & Hcmds & Htag) (gs & Hgs)]
         [Hn' Hc' Hi' Hp' Hs' (cmds' & Hcmds' & Htag') (gs' & Hgs')].
  split; try congruence.
  - exists (cmds ++ cmds'). rewrite Hcmds', Hcmds, app_assoc.
    split; [reflexivity|]. apply Forall_app. split; [exact Htag|].
    rewrite <- Hc. exact Htag'.
  - exists (gs ++ gs'). rewrite Hgs', Hgs, app_assoc. reflexivity.
Qed.

Lemma spare_with_handle (r : R) sess : spare (with_handle r sess) = spare sess.
Proof.
  unfold with_handle, spare, with_clusterCLi, with_client.
  destruct (cluster sess) eqn:E; simpl; rewrite ?E; reflexivity.
Qed.

Lemma keeps_ret {A} (a : A) : keeps (ret (R:=R) (M:=M) a).
Proof. intros w. apply kept_refl. Qed.

Lemma keeps_self : keeps (self (R:=R) (M:=M)).
Proof. intros w. apply kept_refl. Qed.

Lemma keeps_bind {A B} (c : St R M A) (k : A -> St R M B) :
  keeps c -> (forall a, keeps (k a)) -> keeps (bind c k).
Proof.
  intros Hc Hk w. unfold bind. specialize (Hc w).
  destruct (c w) as [a w1]. cbn [snd] in Hc.
  exact (kept_trans _ _ _ Hc (Hk a w1)).
Qed.

Lemma keeps_on_handle {A} (c : Cmd) (op : R -> A * R) :
  keeps (on_handle (M:=M) c op).
Proof.
  intros w. unfold on_handle. destruct (op (handle (rs w))) as [a r].
  cbn [snd]. split; cbn [rs issued spawned].
  - apply name_with_handle.
  - apply cluster_with_handle.
  - unfold with_handle. destruct (cluster (rs w)); reflexivity.
  - unfold with_handle. destruct (cluster (rs w)); reflexivity.
  - apply spare_with_handle.
  - exists [(cluster (rs w), c)]. split; [reflexivity|].
    constructor; [reflexivity|constructor].
  - exists []. rewrite app_nil_r. reflexivity.
Qed.

(** The [if rs.cluster] of the source, followed by the rest of a method. *)
Lemma keeps_pick_bind {A B} (c : Cmd) (op : R -> A * R) (k : A -> St R M B) :
  (forall a, keeps (k a)) ->
  keeps (bind self
           (fun x => bind (if cluster x then on_clusterCLi c op
                            else on_client c op) k)).
Proof.
  intros Hk w.
  assert (E : bind self
                (fun x => bind (if cluster x then on_clusterCLi c op
                                 else on_client c op) k) w
              = bind (on_handle c op) k w).
  { unfold bind, self. rewrite pick_handle. reflexivity. }
  rewrite E. apply (keeps_bind _ _ (keeps_on_handle c op) Hk).
Qed.

Lemma keeps_pick {A} (c : Cmd) (op : R -> A * R) :
  keeps (bind self
           (fun x => if cluster x then on_clusterCLi (M:=M) c op
                      else on_client c op)).
Proof.
  intros w.
  assert (E : bind self
                (fun x => if cluster x then on_clusterCLi (M:=M) c op
                           else on_client c op) w
              = on_handle c op w).
  { unfold bind, self. apply pick_handle. }
  rewrite E. apply keeps_on_handle.
Qed.

Lemma keeps_mem_Get key : keeps (mem_Get (R:=R) (M:=M) key).
Proof. intros w. apply kept_refl. Qed.

Lemma keeps_with_mem (m : M) w :
  kept w {| rs := with_mem m (rs w); spawned := spawned w;
            issued := issued w |}.
Proof.
  split; try reflexivity.
  - exists []. rewrite app_nil_r. split; [reflexivity|constructor].
  - exists []. rewrite app_nil_r. reflexivity.
Qed.

Lemma keeps_mem_Set key s ttl : keeps (mem_Set (R:=R) key s ttl).
Proof.
  intros w. unfold mem_Set. destruct (memSet _ _ _ _) as [b m].
  apply keeps_with_mem.
Qed.

Lemma keeps_mem_Delete key : keeps (mem_Delete (R:=R) key).
Proof. intros w. apply keeps_with_mem. Qed.

Lemma keeps_go (g : goroutine) : keeps (go (R:=R) (M:=M) g).
Proof.
  intros w. split; try reflexivity.
  - exists []. rewrite app_nil_r. split; [reflexivity|constructor].
  - exists [g]. reflexivity.
Qed.

Ltac keeps_step :=
  first
    [ apply keeps_ret
    | apply keeps_self
    | apply keeps_mem_Get
    | apply keeps_mem_Set
    | apply keeps_mem_Delete
    | apply keeps_go
    | apply keeps_pick
    | apply keeps_pick_bind; intros
    | match goal with
      | |- keeps (match ?x with _ => _ end) => destruct x
      end
    | apply keeps_bind; [|intros] ].

Lemma keeps_getTtl key : keeps (getTtl (M:=M) key).
Proof. unfold getTtl. repeat keeps_step. Qed.

Lemma keeps_Get key : keeps (Get key).
Proof.
  unfold Get, Get_at. repeat keeps_step; try apply keeps_getTtl;
    repeat keeps_step.
Qed.

Lemma keeps_Set key data ttl : keeps (Set_ key data ttl).
Proof. unfold Set_. repeat keeps_step. Qed.

Lemma keeps_Delete key : keeps (Delete (R:=R) (M:=M) key).
Proof. unfold Delete. repeat keeps_step. Qed.

Lemma keeps_hash key (field payload : string) :
  keeps (HGet (M:=M) key field) /\
  keeps (HSet (M:=M) key field payload) /\
  keeps (HDel (M:=M) key field).
Proof. unfold HGet, HSet, HDel. repeat split; repeat keeps_step. Qed.

Lemma keeps_del_keys (keys : list string) : keeps (del_keys (M:=M) keys).
Proof.
  induction keys as [|k rest IH]; cbn [del_keys]; repeat keeps_step.
  exact IH.
Qed.

Lemma keeps_ScanDelete_from fuel key c n :
  keeps (ScanDelete_from (M:=M) fuel key c n).
Proof.
  revert c n. induction fuel as [|fuel IH]; intros c n;
    cbn [ScanDelete_from]; repeat keeps_step;
    try apply keeps_del_keys; repeat keeps_step.
  apply IH.
Qed.

Lemma keeps_publish key val ttl act : keeps (publish (M:=M) key val ttl act).
Proof.
  intros w. unfold publish, bind, self.
  destruct (marshal_publisher _) as [s|]; [|apply kept_refl].
  rewrite pick_handle.
  pose proof (keeps_on_handle (CmdPublish redis_sync_chan s)
                (redisPublish redis_sync_chan s) w) as Hk.
  destruct (on_handle _ _ w) as [rep w1]. exact Hk.
Qed.

Lemma keeps_on_message payload (pub : publisher) :
  keeps (on_message (R:=R) payload pub).
Proof. unfold on_message. repeat keeps_step. Qed.

Lemma keeps_listen chn (pub : publisher) : keeps (listen (R:=R) chn pub).
Proof.
  revert pub. induction chn as [|msg more IH]; intros pub; cbn [listen].
  - apply keeps_ret.
  - apply keeps_bind; [apply keeps_on_message|exact IH].
Qed.

Lemma keeps_subscribe chn : keeps (subscribe (R:=R) chn).
Proof. unfold subscribe. apply keeps_pick_bind. intros _. apply keeps_listen. Qed.

Lemma perform_kept (c : call) w : kept w (perform c w).
Proof.
  destruct c as [key|key data ttl|key|fuel key|key field|key field payload
                |key field|key|g chn]; cbn [perform].
  - apply keeps_Get.
  - apply keeps_Set.
  - apply keeps_Delete.
  - apply keeps_ScanDelete_from.
  - apply (proj1 (keeps_hash key field "")).
  - apply (proj1 (proj2 (keeps_hash key field payload))).
  - apply (proj2 (proj2 (keeps_hash key field ""))).
  - apply kept_refl.
  - destruct g; cbn [run]; [apply keeps_publish|apply keeps_subscribe].
Qed.

Lemma perform_all_kept (cs : list call) w : kept w (perform_all cs w).
Proof.
  revert w. induction cs as [|c cs IH]; intros w; cbn [perform_all foldl].
  - apply kept_refl.
  - apply (kept_trans _ _ _ (perform_kept c w)).
    apply IH.
Qed.

(** X1.  Whatever a program calls, and whatever goroutine the scheduler
    runs, the session keeps its name, its topology, its address and
    password and its spare handle; the log only grows, by commands on the
    handle of the topology; and the started goroutines only grow.  So it
    is after one call and after any number of them. *)
Theorem every_call_keeps_the_session (cs : list call) w :
  (forall c, kept w (perform c w)) /\ kept w (perform_all cs w).
Proof.
  split; [intros c; apply perform_kept|apply perform_all_kept].
Qed.

(** X2.  A session made by [newRedis] stays a single-endpoint session
    through any program: it keeps the name it drew, sends every command on
    [client], never touches [clusterCLi], and its listener stays the first
    goroutine.  A session made by [newRedisCluster] likewise, on
    [clusterCLi]. *)
Theorem constructed_session_stays_on_its_handle
  (addr pw id : string) (conn idle : R) (cs : list call) :
  (let w := perform_all cs (newRedis addr pw id conn idle) in
   name (rs w) = id /\ cluster (rs w) = false /\
   clusterCLi (rs w) = idle /\
   Forall (fun c => c.1 = false) (issued w) /\
   exists gs, spawned w = go_subscribe :: gs) /\
  (let w := perform_all cs (newRedisCluster pw id conn idle) in
   name (rs w) = id /\ cluster (rs w) = true /\
   client (rs w) = idle /\
   Forall (fun c => c.1 = true) (issued w) /\
   exists gs, spawned w = go_subscribe :: gs).
Proof.
  split.
  - destruct (perform_all_kept cs (newRedis addr pw id conn idle))
      as [Hn Hc _ _ Hs (cmds & Hcmds & Htag) (gs & Hgs)].
    cbn zeta. cbn [newRedis rs name cluster issued spawned] in *.
    split; [exact Hn|]. split; [exact Hc|].
    split; [unfold spare in Hs; rewrite Hc in Hs; exact Hs|].
    split; [rewrite Hcmds; exact Htag|].
    exists gs. exact Hgs.
  - destruct (perform_all_kept cs (newRedisCluster pw id conn idle))
      as [Hn Hc _ _ Hs (cmds & Hcmds & Htag) (gs & Hgs)].
    cbn zeta. cbn [newRedisCluster rs name cluster issued spawned] in *.
    split; [exact Hn|]. split; [exact Hc|].
    split; [unfold spare in Hs; rewrite Hc in Hs; exact Hs|].
    split; [rewrite Hcmds; exact Htag|].
    exists gs. exact Hgs.
Qed.

(** ** The listener *)

Lemma with_mem_same sess : with_mem (mem sess) sess = sess.
Proof. destruct sess. reflexivity. Qed.

Lemma with_mem_twice (m m' : M) sess :
  with_mem m' (with_mem m sess) = with_mem m' sess.
Proof. reflexivity. Qed.

(** The loop of the listener writes the local cache and nothing else. *)
Lemma listen_only_writes_the_cache chn (pub : publisher) w :
  exists m,
    (listen chn pub w).2
    = {| rs := with_mem m (rs w); spawned := spawned w;
         issued := issued w |}.
Proof.
  revert pub w. induction chn as [|msg more IH]; intros pub w.
  - exists (mem (rs w)). cbn. rewrite with_mem_same. destruct w. reflexivity.
  - cbn [listen]. unfold bind. rewrite on_message_eq.
    destruct (unmarshal_publisher msg pub) as [p ok].
    destruct (ok && negb (String.eqb (From p) (name (rs w)))); [|apply IH].
    destruct (Act p =? redis_sync_set);
      [|destruct (Act p =? redis_sync_del); [|apply IH]].
    + match goal with |- context [listen more p ?n] =>
        destruct (IH p n) as [m Hm] end.
      exists m. rewrite Hm. reflexivity.
    + match goal with |- context [listen more p ?n] =>
        destruct (IH p n) as [m Hm] end.
      exists m. rewrite Hm. reflexivity.
Qed.

(** X3.  The listener sends one command, the Subscribe to the channel on
    the handle of its topology, and beyond that writes the local cache and
    nothing else: whatever the channel delivers, it sends nothing more,
    starts no goroutine and leaves both handles and the name alone. *)
Theorem listener_only_writes_the_cache chn w :
  exists m,
    (subscribe chn w).2
    = {| rs := with_mem m (rs w); spawned := spawned w;
         issued := issued w
                   ++ [(cluster (rs w), CmdSubscribe redis_sync_chan)] |}.
Proof.
  rewrite subscribe_eq.
  match goal with |- context [listen chn publisher_zero ?n] =>
    destruct (listen_only_writes_the_cache chn publisher_zero n) as [m Hm]
  end.
  exists m. rewrite Hm. reflexivity.
Qed.

(** X4.  Messages that do not decode, notices of this node, and notices
    whose action is neither Update nor Delete are all passed over: a run
    of the listener over such messages leaves the node as it was. *)
Theorem listener_passes_over chn (pub : publisher) w :
  Forall (fun msg => forall pub0,
              (unmarshal_publisher msg pub0).2 = false \/
              From (unmarshal_publisher msg pub0).1 = name (rs w) \/
              (Act (unmarshal_publisher msg pub0).1 <> redis_sync_set /\
               Act (unmarshal_publisher msg pub0).1 <> redis_sync_del)) chn ->
  listen chn pub w = (tt, w).
Proof.
  intros Hall. revert pub. induction Hall as [|msg chn Hmsg _ IH]; intros pub.
  - reflexivity.
  - cbn [listen]. unfold bind. rewrite on_message_eq.
    specialize (Hmsg pub).
    destruct (unmarshal_publisher msg pub) as [p ok]. cbn [fst snd] in Hmsg.
    destruct Hmsg as [-> | [Hown | [Hset Hdel]]].
    + apply IH.
    + rewrite Hown, String.eqb_refl, andb_false_r. apply IH.
    + apply Z.eqb_neq in Hset, Hdel. rewrite Hset, Hdel.
      destruct (ok && _); apply IH.
Qed.

(** ** Operations that go to the store only *)

Lemma store_only_ret {A} (a : A) : store_only (ret (R:=R) (M:=M) a).
Proof. intros w. split; reflexivity. Qed.

Lemma store_only_bind {A B} (c : St R M A) (k : A -> St R M B) :
  store_only c -> (forall a, store_only (k a)) -> store_only (bind c k).
Proof.
  intros Hc Hk w. unfold bind. specialize (Hc w).
  destruct (c w) as [a w1]. cbn [snd] in Hc. destruct Hc as [Hm Hs].
  destruct (Hk a w1) as [Hm' Hs']. split; congruence.
Qed.

Lemma store_only_on_handle {A} (c : Cmd) (op : R -> A * R) :
  store_only (on_handle (M:=M) c op).
Proof.
  intros w. destruct (on_handle_frame c op w) as (_ & Hm & Hs & _).
  split; assumption.
Qed.

Lemma store_only_pick_bind {A B} (c : Cmd) (op : R -> A * R)
  (k : A -> St R M B) :
  (forall a, store_only (k a)) ->
  store_only (bind self
                (fun x => bind (if cluster x then on_clusterCLi c op
                                else on_client c op) k)).
Proof.
  intros Hk w.
  assert (E : bind self
                (fun x => bind (if cluster x then on_clusterCLi c op
                                else on_client c op) k) w
              = bind (on_handle c op) k w).
  { unfold bind, self. rewrite pick_handle. reflexivity. }
  rewrite E. apply (store_only_bind _ _ (store_only_on_handle c op) Hk).
Qed.

Lemma store_only_pick {A} (c : Cmd) (op : R -> A * R) :
  store_only (bind self
                (fun x => if cluster x then on_clusterCLi (M:=M) c op
                          else on_client c op)).
Proof.
  intros w.
  assert (E : bind self
                (fun x => if cluster x then on_clusterCLi (M:=M) c op
                          else on_client c op) w
              = on_handle c op w).
  { unfold bind, self. apply pick_handle. }
  rewrite E. apply store_only_on_handle.
Qed.

Ltac store_only_step :=
  first
    [ apply store_only_ret
    | apply store_only_pick
    | apply store_only_pick_bind; intros
    | match goal with
      | |- store_only (match ?x with _ => _ end) => destruct x
      end
    | apply store_only_bind; [|intros] ].

Lemma store_only_del_keys (keys : list string) :
  store_only (del_keys (M:=M) keys).
Proof.
  induction keys as [|k rest IH]; cbn [del_keys]; repeat store_only_step.
  exact IH.
Qed.

Lemma store_only_ScanDelete_from fuel key c n :
  store_only (ScanDelete_from (M:=M) fuel key c n).
Proof.
  revert c n. induction fuel as [|fuel IH]; intros c n;
    cbn [ScanDelete_from]; repeat store_only_step;
    try apply store_only_del_keys; repeat store_only_step.
  apply IH.
Qed.



(** X6.  A key that is in the local cache is still served from it after a
    bulk delete, whatever the bulk delete removed from the store: the [Get]
    returns the cached value and sends nothing. *)
Theorem ScanDelete_leaves_cached_keys_readable fuel (pattern : string)
  key s v w :
  memGet key (mem (rs w)) = Some s ->
  unmarshal s = Some v ->
  Get key (ScanDelete fuel pattern w).2
  = ((true, Some v), (ScanDelete fuel pattern w).2).
Proof.
  intros Hs Hv.
  destruct (store_only_ScanDelete_from fuel pattern 0 0 w) as [Hm _].
  fold (ScanDelete (M:=M) fuel pattern) in Hm.
  apply (Get_local key s v); [rewrite Hm; exact Hs|exact Hv].
Qed.

(** ** Fuel *)

(** The fuel only bounds the rounds: once the loop ends with some fuel,
    it ends in the same way with any more. *)
Lemma ScanDelete_more_fuel fuel fuel' key c n w res w' :
  ScanDelete_from fuel key c n w = (Some res, w') ->
  (fuel <= fuel')%nat ->
  ScanDelete_from fuel' key c n w = (Some res, w').
Proof.
  revert fuel' c n w.
  induction fuel as [|fuel IH]; intros fuel' c n w; [discriminate|].
  intros Hrun Hle. destruct fuel' as [|fuel']; [lia|].
  rewrite ScanDelete_from_S in *.
  destruct (on_handle _ _ w) as [[[keys c2]|e] w2]; [|exact Hrun].
  cbn zeta in *.
  destruct (del_keys keys w2) as [[e|] w3]; [exact Hrun|].
  destruct (c2 =? 0); [exact Hrun|].
  apply IH; [exact Hrun|lia].
Qed.

(** ** The count of a bulk delete that went through *)

Lemma deletes_of_page (h : bool) (keys : list string) :
  List.filter (fun c : bool * Cmd => is_delete c.2)
    (map (fun k => (h, CmdDel k)) keys)
  = map (fun k => (h, CmdDel k)) keys.
Proof.
  induction keys as [|k rest IH]; [reflexivity|].
  cbn [map List.filter snd is_delete]. rewrite IH. reflexivity.
Qed.

Lemma deletes_commands (h : bool) key (pages : list (Z * list string)) :
  Z.of_nat (deletes (commands h key pages)) = total pages.
Proof.
  unfold deletes, total, commands. f_equal.
  induction pages as [|[c keys] pages IH]; [reflexivity|].
  cbn [map concat fst snd]. cbn [List.filter app snd is_delete].
  rewrite List.filter_app, deletes_of_page, !length_app, length_map, IH.
  reflexivity.
Qed.

Lemma commands_app (h : bool) key (pages more : list (Z * list string)) :
  commands h key (pages ++ more) = commands h key pages ++ commands h key more.
Proof. unfold commands. rewrite map_app, concat_app. reflexivity. Qed.

(** X8.  When [ScanDelete] ends without error, the count it returns is
    the number of deletes it sent. *)
Theorem ScanDelete_counts_its_deletes fuel key w n w' :
  ScanDelete fuel key w = (Some (n, None), w') ->
  exists cmds,
    issued w' = issued w ++ cmds /\
    (in_int64 (Z.of_nat (deletes cmds)) -> n = Z.of_nat (deletes cmds)).
Proof.
  intros Hrun. unfold ScanDelete in Hrun.
  destruct (ScanDelete_from_ends _ _ _ _ _ _ _ Hrun)
    as (pages & w1 & c1 & Hr & _ & Hlast).
  destruct Hlast as [(e & _ & [=]) | [(keys & c2 & w2 & e & _ & _ & [=])
                                     | (keys & w2 & Hscan & Hdel & [= ->])]].
  destruct (rounds_issued _ _ _ _ _ _ Hr) as (Hi1 & Hc1 & _ & _).
  pose proof (on_handle_frame (CmdScan c1 key 100) (redisScan c1 key 100) w1)
    as (Hc2 & _ & _ & Hi2).
  rewrite Hscan in Hc2, Hi2. cbn [snd] in Hc2, Hi2.
  destruct (del_keys_all keys w2 w' Hdel) as (Hi3 & _ & _ & _).
  exists (commands (cluster (rs w)) key (pages ++ [(c1, keys)])).
  split.
  - rewrite Hi3, Hi2, Hi1, Hc2, Hc1, commands_app.
    unfold commands at 3. cbn [map concat fst snd].
    rewrite app_nil_r, <- !app_assoc. reflexivity.
  - rewrite deletes_commands. intros Hrange.
    rewrite scanned_from; [lia|lia|]. rewrite Z.add_0_l. exact Hrange.
Qed.

(** ** The read path *)

(** X9.  What a [Get] costs and touches.  It sends nothing when the key
    is in the local cache (whether the cached value decodes or not), the
    store's Get alone when that fails, and the store's Get and the TTL
    query otherwise.  It never starts a goroutine, and it writes the local
    cache only when it leaves through line 179. *)
Theorem Get_round_trips key w :
  issued (Get key w).2
  = issued w ++
    match memGet key (mem (rs w)) with
    | Some _ => []
    | None =>
        match (redisGet key (handle (rs w))).1 with
        | Err _ => [(cluster (rs w), CmdGet key)]
        | Ok _ => [(cluster (rs w), CmdGet key); (cluster (rs w), CmdTTL key)]
        end
    end /\
  spawned (Get key w).2 = spawned w /\
  ((Get_at key w).1.1 = ret_repopulated \/
   mem (rs (Get key w).2) = mem (rs w)).
Proof.
  rewrite Get_eq, Get_at_eq.
  destruct (memGet key (mem (rs w))) as [s|].
  - rewrite app_nil_r. destruct (unmarshal s); cbn; auto.
  - destruct (redisGet key (handle (rs w))) as [[s|e] r1]; cbn [fst].
    + destruct (redisTTL key r1) as [d r2].
      destruct (unmarshal s) as [v|].
      * destruct (memSet _ _ _ _) as [b m]. cbn [fst snd rs issued spawned].
        rewrite <- app_assoc. auto.
      * cbn [fst snd rs issued spawned]. rewrite <- app_assoc, mem_with_handle.
        auto.
    + cbn [fst snd rs issued spawned]. rewrite mem_with_handle. auto.
Qed.

(** X10.  A [Get] that fetched a value with more than five seconds to
    live is followed by a [Get] that is served from the local cache: it
    returns the same value, sends nothing and leaves the node as it is. *)
Theorem Get_then_Get_is_local key w s v r1 d r2 :
  set_then_get M ->
  memGet key (mem (rs w)) = None ->
  redisGet key (handle (rs w)) = (Ok s, r1) ->
  redisTTL key r1 = (d, r2) ->
  in_int64 d ->
  unmarshal s = Some v ->
  5 < duration_to_seconds d ->
  (Get key w).1.2 = Some v /\
  Get key (Get key w).2 = ((true, Some v), (Get key w).2).
Proof.
  intros Hcache Hmiss Hget Httl Hd Hv Hlong.
  destruct (Get_fills_from_store key w s v r1 d r2 Hmiss Hget Httl Hd Hv)
    as (_ & Hres & Hmem).
  split; [rewrite Hres; reflexivity|].
  apply (Get_local key s v); [|exact Hv].
  rewrite Hmem. apply Hcache. lia.
Qed.

Lemma six_seconds (d : Z) : 5 < duration_to_seconds d <-> 6 * Second <= d.
Proof.
  unfold duration_to_seconds, Second. split.
  - intros Hq. destruct (Z_lt_le_dec d 6000000000) as [Hlt|]; [|assumption].
    pose proof (Z.quot_le_mono d 5999999999 1000000000
                  ltac:(lia) ltac:(lia)) as Hm.
    change (5999999999 ÷ 1000000000) with 5 in Hm. lia.
  - intros Hd.
    pose proof (Z.quot_le_mono 6000000000 d 1000000000
                  ltac:(lia) ltac:(lia)) as Hm.
    change (6000000000 ÷ 1000000000) with 6 in Hm. lia.
Qed.

(** X11.  The lifetime of a repopulated entry is positive exactly when the
    store still gives the key six seconds or more: with less, the entry is
    handed to the local cache with a lifetime of zero or below. *)
Theorem Get_lifetime_is_positive_from_six_seconds key w s v r1 d r2 :
  memGet key (mem (rs w)) = None ->
  redisGet key (handle (rs w)) = (Ok s, r1) ->
  redisTTL key r1 = (d, r2) ->
  in_int64 d ->
  unmarshal s = Some v ->
  exists t,
    mem (rs (Get key w).2) = (memSet key s t (mem (rs w))).2 /\
    (0 < t <-> 6 * Second <= d).
Proof.
  intros Hmiss Hget Httl Hd Hv.
  destruct (Get_fills_from_store key w s v r1 d r2 Hmiss Hget Httl Hd Hv)
    as (_ & _ & Hmem).
  exists (duration_to_seconds d - 5). split; [exact Hmem|].
  rewrite <- six_seconds. lia.
Qed.

(** X12.  [getTtl] hands back whole seconds as they are, and anything
    short of a second, either way, as zero: the answers -1ns ("no
    expiry") and -2ns ("no such key") of the store both read as a lifetime
    of 0 seconds. *)
Theorem getTtl_reads_seconds key w d r n :
  redisTTL key (handle (rs w)) = (d, r) ->
  (d = n * Second -> (getTtl key w).1.1 = n) /\
  (- Second < d < Second -> (getTtl key w).1.1 = 0).
Proof.
  intros Httl. rewrite getTtl_eq, Httl. cbn [fst].
  unfold duration_to_seconds, Second. split.
  - intros ->. apply Z.quot_mul. lia.
  - intros Hsmall. destruct (Z_lt_le_dec d 0).
    + rewrite <- (Z.opp_involutive d), Z.quot_opp_l by lia.
      rewrite Z.quot_small by lia. reflexivity.
    + apply Z.quot_small. lia.
Qed.

(** ** The write path *)

Lemma exact_duration (ttl : Z) :
  in_int64 ttl -> 0 < ttl ->
  (seconds_to_duration ttl = Second * ttl <-> ttl <= 9223372036).
Proof.
  unfold in_int64, seconds_to_duration, int_mul, wrap64, Second.
  change (2 ^ 64) with 18446744073709551616.
  change (2 ^ 63) with 9223372036854775808.
  intros Hr Hpos. split.
  - intros Heq.
    pose proof (Z.mod_pos_bound (1000000000 * ttl + 9223372036854775808)
                  18446744073709551616 ltac:(lia)).
    lia.
  - intros Hle. rewrite Z.mod_small by lia. lia.
Qed.

(** X13.  A [Set] with a positive lifetime that goes through gives the
    same lifetime to the store, to the local cache and to the notice.  The
    duration sent to the store is that many seconds exactly when the
    lifetime is at most 9223372036 seconds; above, [time.Second * ttl] has
    wrapped. *)
Theorem Set_gives_one_lifetime key data ttl w s r :
  marshal data = Some s ->
  0 < ttl ->
  in_int64 ttl ->
  redisSet key s (seconds_to_duration ttl) (handle (rs w)) = (None, r) ->
  (Set_ key data ttl w).1 = true /\
  issued (Set_ key data ttl w).2
  = issued w ++ [(cluster (rs w), CmdSet key s (seconds_to_duration ttl))] /\
  mem (rs (Set_ key data ttl w).2) = (memSet key s ttl (mem (rs w))).2 /\
  spawned (Set_ key data ttl w).2
  = spawned w ++ [go_publish key s ttl redis_sync_set] /\
  (seconds_to_duration ttl = Second * ttl <-> ttl <= 9223372036).
Proof.
  intros Hs Hpos Hr Hset.
  assert (Hl : lifetime ttl = ttl).
  { unfold lifetime. destruct (ttl <=? 0) eqn:E; [|reflexivity].
    apply Z.leb_le in E. lia. }
  rewrite Set_eq, Hs, Hl, Hset. cbn [fst snd rs issued spawned].
  repeat split; try apply exact_duration; assumption.
Qed.

(** ** From one node to another *)

Lemma Get_miss_asks_store key w :
  memGet key (mem (rs w)) = None ->
  exists rest,
    issued (Get key w).2 = issued w ++ (cluster (rs w), CmdGet key) :: rest.
Proof.
  intros Hmiss. rewrite Get_eq, Get_at_eq, Hmiss.
  destruct (redisGet key (handle (rs w))) as [[s|e] r1].
  - destruct (redisTTL key r1) as [d r2].
    exists [(cluster (rs w), CmdTTL key)].
    destruct (unmarshal s) as [v|];
      [destruct (memSet _ _ _ _) as [b m]|];
      cbn [fst snd rs issued]; rewrite <- app_assoc; reflexivity.
  - exists []. reflexivity.
Qed.

Lemma foreign_notice payload (pub p : publisher) w :
  unmarshal_publisher payload pub = (p, true) ->
  From p <> name (rs w) ->
  on_message payload pub w =
  if Act p =? redis_sync_set then
    (p, {| rs := with_mem (memSet (Key p) (Val p) (Ttl p) (mem (rs w))).2
                   (rs w);
           spawned := spawned w; issued := issued w |})
  else if Act p =? redis_sync_del then
    (p, {| rs := with_mem (memDelete (Key p) (mem (rs w))) (rs w);
           spawned := spawned w; issued := issued w |})
  else (p, w).
Proof.
  intros Hp Hne. rewrite on_message_eq, Hp.
  apply String.eqb_neq in Hne. rewrite Hne. reflexivity.
Qed.

Lemma own_notice payload (pub p : publisher) w :
  unmarshal_publisher payload pub = (p, true) ->
  From p = name (rs w) ->
  on_message payload pub w = (p, w).
Proof.
  intros Hp Hown. rewrite on_message_eq, Hp, Hown, String.eqb_refl.
  reflexivity.
Qed.

(** X14.  A write reaches the other nodes.  When [Set] returns true on
    node A, the goroutine it started sends the notice of the write on the
    channel; a node B of another name that receives it holds the key with
    the value and lifetime that A holds, so that (with a codec that decodes
    what it encodes and a cache that finds what it stored) B's next [Get]
    returns the value without asking the store; and A, receiving its own
    notice, stays as it is. *)
Theorem Set_reaches_the_peers key v ttl (wA wA' wB : Node R M) s payload :
  Set_ key v ttl wA = (true, wA') ->
  marshal v = Some s ->
  marshal_publisher {| From := name (rs wA); Act := redis_sync_set;
                       Key := key; Val := s; Ttl := lifetime ttl |}
  = Some payload ->
  (forall pub,
      unmarshal_publisher payload pub
      = ({| From := name (rs wA); Act := redis_sync_set; Key := key;
            Val := s; Ttl := lifetime ttl |}, true)) ->
  name (rs wB) <> name (rs wA) ->
  spawned wA' = spawned wA ++ [go_publish key s (lifetime ttl) redis_sync_set] /\
  issued (run (go_publish key s (lifetime ttl) redis_sync_set) [] wA').2
  = issued wA' ++ [(cluster (rs wA), CmdPublish redis_sync_chan payload)] /\
  mem (rs wA') = (memSet key s (lifetime ttl) (mem (rs wA))).2 /\
  (forall pub,
      mem (rs (on_message payload pub wB).2)
      = (memSet key s (lifetime ttl) (mem (rs wB))).2 /\
      (json_roundtrip Value -> set_then_get M ->
       Get key (on_message payload pub wB).2
       = ((true, Some v), (on_message payload pub wB).2)) /\
      (on_message payload pub wA').2 = wA').
Proof.
  intros Hset Hs Hsend Hrecv Hne.
  rewrite Set_eq, Hs in Hset.
  destruct (redisSet _ _ _ _) as [[e|] r]; [discriminate|].
  injection Hset as <-.
  split; [reflexivity|]. split; [|split; [reflexivity|]].
  - cbn [run]. rewrite publish_eq. cbn [rs]. unfold with_mem at 1. cbn [name].
    rewrite name_with_handle, Hsend. cbn [snd issued rs].
    unfold with_mem. cbn [cluster]. rewrite cluster_with_handle.
    reflexivity.
  - intros pub.
    assert (HB : on_message payload pub wB
                 = ({| From := name (rs wA); Act := redis_sync_set;
                       Key := key; Val := s; Ttl := lifetime ttl |},
                    {| rs := with_mem
                               (memSet key s (lifetime ttl) (mem (rs wB))).2
                               (rs wB);
                       spawned := spawned wB; issued := issued wB |})).
    { rewrite (foreign_notice payload pub _ wB (Hrecv pub));
        [reflexivity|]. cbn [From]. congruence. }
    rewrite HB. cbn [snd rs]. split; [reflexivity|]. split.
    + intros Hjson Hcache. apply (Get_local key s v); [|exact (Hjson v s Hs)].
      cbn [rs]. unfold with_mem. cbn [mem].
      apply Hcache, lifetime_positive.
    + rewrite (own_notice payload pub _ _ (Hrecv pub)); [reflexivity|].
      cbn [From rs]. unfold with_mem. cbn [name].
      rewrite name_with_handle. reflexivity.
Qed.

(** X15.  A delete reaches the other nodes.  The goroutine started by
    [Delete] on node A sends the Delete notice; a node B of another name
    that receives it no longer has the key in its local cache; and on B as
    on A the next [Get] of the key asks the store (in a cache where a
    deleted key is not found). *)
Theorem Delete_reaches_the_peers key (wA wB : Node R M) payload :
  marshal_publisher {| From := name (rs wA); Act := redis_sync_del;
                       Key := key; Val := ""; Ttl := 0 |}
  = Some payload ->
  (forall pub,
      unmarshal_publisher payload pub
      = ({| From := name (rs wA); Act := redis_sync_del; Key := key;
            Val := ""; Ttl := 0 |}, true)) ->
  name (rs wB) <> name (rs wA) ->
  delete_then_get M ->
  issued (run (go_publish key "" 0 redis_sync_del) [] (Delete key wA).2).2
  = issued (Delete key wA).2
    ++ [(cluster (rs wA), CmdPublish redis_sync_chan payload)] /\
  (exists rest,
      issued (Get key (Delete key wA).2).2
      = issued (Delete key wA).2 ++ (cluster (rs wA), CmdGet key) :: rest) /\
  (forall pub,
      mem (rs (on_message payload pub wB).2) = memDelete key (mem (rs wB)) /\
      exists rest,
        issued (Get key (on_message payload pub wB).2).2
        = issued (on_message payload pub wB).2
          ++ (cluster (rs wB), CmdGet key) :: rest).
Proof.
  intros Hsend Hrecv Hne Hcache.
  assert (HA : name (rs (Delete key wA).2) = name (rs wA) /\
               cluster (rs (Delete key wA).2) = cluster (rs wA) /\
               mem (rs (Delete key wA).2) = memDelete key (mem (rs wA))).
  { rewrite Delete_eq. cbn [snd rs]. unfold with_mem. cbn [name cluster mem].
    rewrite name_with_handle, cluster_with_handle. repeat split. }
  destruct HA as (HnA & HcA & HmA).
  split; [|split].
  - cbn [run]. rewrite publish_eq, HnA, Hsend. cbn [snd issued].
    rewrite HcA. reflexivity.
  - rewrite <- HcA. apply Get_miss_asks_store. rewrite HmA. apply Hcache.
  - intros pub.
    assert (HB : on_message payload pub wB
                 = ({| From := name (rs wA); Act := redis_sync_del;
                       Key := key; Val := ""; Ttl := 0 |},
                    {| rs := with_mem (memDelete key (mem (rs wB))) (rs wB);
                       spawned := spawned wB; issued := issued wB |})).
    { rewrite (foreign_notice payload pub _ wB (Hrecv pub));
        [reflexivity|]. cbn [From]. congruence. }
    rewrite HB. cbn [snd rs]. split; [reflexivity|].
    match goal with |- context [Get key ?n] =>
      destruct (Get_miss_asks_store key n) as [rest Hrest] end.
    { cbn [rs]. unfold with_mem. cbn [mem]. apply Hcache. }
    exists rest. rewrite Hrest. reflexivity.
Qed.

End Coverage.

(** * The session on the store in memory *)

Lemma MiniJson_roundtrip : json_roundtrip GoValue.
Proof. intros [|[|]|] s; cbn; intros [= <-]; reflexivity. Qed.

Lemma MiniRedis_honours_count : honours_count MiniRedis.
Proof.
  intros cursor pattern count r keys next r' Hcount. cbn. unfold mini_Scan.
  destruct (fails _ r); [discriminate|]. intros [= <- _ _].
  pose proof (length_filter
                (fun k => bool_decide (is_Some (strings r !! k))
                          && glob pattern k = true)
                (take (Z.to_nat count) (drop (Z.to_nat cursor) (slots r)))).
  rewrite length_take in *. lia.
Qed.

Lemma MemSession_set_then_get : set_then_get MemSession.
Proof.
  intros key s ttl m _. cbn. unfold MemSession_Get.
  rewrite lookup_insert_eq. reflexivity.
Qed.

(** ** Get on a key the store holds without expiry *)

(** C1 at its failing input.  The store holds "k" without expiry, so the
    TTL command answers -1ns, which is 0 seconds: the store's Get
    succeeds, [Get] returns true through line 179, and the local cache
    holds the value with lifetime -5. *)
Theorem Get_caches_without_lifetime :
  memGet "k" (mem (rs node_no_expiry)) = None /\
  (redisGet "k" (handle (rs node_no_expiry))).1 = Ok "true" /\
  duration_to_seconds (redisTTL "k" (handle (rs node_no_expiry))).1 = 0 /\
  (Get_at "k" node_no_expiry).1
  = (ret_repopulated, (true, Some (GoBool true))) /\
  (mem (rs (Get (Value:=GoValue) "k" node_no_expiry).2)
   : gmap string (string * Z)) !! "k"
  = Some ("true", -5).
Proof. vm_compute. repeat split. Qed.

(** ** Runs of the theorems *)

Lemma with_first {A B} (p : A * B) (a : A) : p.1 = a -> p = (a, p.2).
Proof. destruct p. cbn. intros ->. reflexivity. Defined.

(** C2 on a channel, which does not serialize, on a store that refuses the
    write, and on a store that takes it. *)
Lemma Set_failure_is_silent_witness :
  Set_ "k" GoChan 60 (node_A mini_empty) = (false, node_A mini_empty) /\
  ((Set_ "k" (GoBool true) 60 node_down).1 = false /\
   mem (rs (Set_ "k" (GoBool true) 60 node_down).2) = mem (rs node_down) /\
   spawned (Set_ "k" (GoBool true) 60 node_down).2 = spawned node_down /\
   issued (Set_ "k" (GoBool true) 60 node_down).2
   = issued node_down ++ [(false, CmdSet "k" "true" (60 * Second))]) /\
  (Set_ "k" (GoBool true) 60 (node_A mini_empty)).1 = true.
Proof.
  split; [|split].
  - apply (proj1 (Set_failure_is_silent "k" GoChan 60 (node_A mini_empty))).
    reflexivity.
  - apply (proj1 (proj2 (Set_failure_is_silent "k" (GoBool true) 60 node_down))
             "true" io_error (handle (rs node_down))); reflexivity.
  - apply (proj2 (proj2 (Set_failure_is_silent "k" (GoBool true) 60
                           (node_A mini_empty)))
             "true" (mini_put "k" "true" (60 * Second) mini_empty));
      reflexivity.
Defined.

(** C7 on a lifetime of -7 seconds. *)
Lemma Set_defaults_to_one_hour_witness :
  issued (Set_ "k" (GoBool true) (-7) (node_A mini_empty)).2
  = [(false, CmdSet "k" "true" 3600000000000)] /\
  strings (handle (rs (Set_ "k" (GoBool true) (-7) (node_A mini_empty)).2))
    !! "k"
  = Some ("true", 3600000000000).
Proof.
  destruct (Set_defaults_to_one_hour (codec:=MiniJson) (redis:=MiniRedis_client)
             (cache:=MemSession_cache) "k" (GoBool true) (-7)
              (node_A mini_empty) "true" ltac:(lia) ltac:(reflexivity))
    as (_ & _ & _ & Hsent & Hstore).
  split.
  - rewrite Hsent. reflexivity.
  - rewrite Hstore. reflexivity.
Defined.

(** C8 on a cached "{oops", with a good value in the store. *)
Lemma Get_corrupt_entry_is_a_miss_witness :
  memGet "k" (mem (rs node_corrupt)) = Some "{oops" /\
  Get (Value:=GoValue) "k" node_corrupt = ((false, None), node_corrupt).
Proof.
  split; [reflexivity|].
  apply (proj1 (Get_corrupt_entry_is_a_miss (codec:=MiniJson)
                  (redis:=MiniRedis_client) (cache:=MemSession_cache)
                  "k" "{oops" node_corrupt
                  ltac:(reflexivity) ltac:(reflexivity))).
Defined.

(** C3 in cluster mode, with a lifetime of zero. *)
Lemma Set_then_Get_witness :
  (Set_ "k" (GoBool false) 0 (node_B mini_empty)).1 = true /\
  Get "k" (Set_ "k" (GoBool false) 0 (node_B mini_empty)).2
  = ((true, Some (GoBool false)),
     (Set_ "k" (GoBool false) 0 (node_B mini_empty)).2).
Proof.
  split; [reflexivity|].
  assert (Hset : Set_ "k" (GoBool false) 0 (node_B mini_empty)
                 = (true, (Set_ "k" (GoBool false) 0 (node_B mini_empty)).2))
    by (vm_compute; reflexivity).
  apply (proj2 (Set_then_Get "k" (GoBool false) 0 (node_B mini_empty) _ Hset)
           MiniJson_roundtrip MemSession_set_then_get).
Defined.

(** C4 on node-A holding "k" with an older value.  After an Update from
    node-B the listener receives its own notice, which changes nothing;
    after its own notice it receives the Update from node-B, which it
    stores; after the Update it receives the Delete from node-B, which
    removes the key. *)
Lemma listener_skips_own_notices_witness :
  (subscribe (codec:=MiniJson) ([update_of_k_by_B] ++ [update_of_k])
     node_stale).2
  = (subscribe (codec:=MiniJson) [update_of_k_by_B] node_stale).2 /\
  MemSession_Get "k"
    (mem (rs (subscribe (codec:=MiniJson) [update_of_k] node_stale).2))
  = Some "false" /\
  MemSession_Get "k"
    (mem (rs (subscribe (codec:=MiniJson)
                ([update_of_k] ++ [update_of_k_by_B]) node_stale).2))
  = Some "true" /\
  MemSession_Get "k"
    (mem (rs (subscribe (codec:=MiniJson)
                ([update_of_k_by_B] ++ [delete_of_k_by_B]) node_stale).2))
  = None.
Proof.
  split; [|split; [reflexivity|split]].
  - destruct (listener_skips_own_notices (codec:=MiniJson)
                (cache:=MemSession_cache)
                [update_of_k_by_B] update_of_k
                {| From := "node-A"; Act := 1; Key := "k"; Val := "true";
                   Ttl := 60 |}
                node_stale ltac:(reflexivity)) as (Hown & _ & _).
    apply Hown. reflexivity.
  - destruct (listener_skips_own_notices (codec:=MiniJson)
                (cache:=MemSession_cache)
                [update_of_k] update_of_k_by_B
                {| From := "node-B"; Act := 1; Key := "k"; Val := "true";
                   Ttl := 30 |}
                node_stale ltac:(reflexivity)) as (_ & Hset & _).
    rewrite Hset; [reflexivity|discriminate|reflexivity].
  - destruct (listener_skips_own_notices (codec:=MiniJson)
                (cache:=MemSession_cache)
                [update_of_k_by_B] delete_of_k_by_B
                {| From := "node-B"; Act := 2; Key := "k"; Val := "";
                   Ttl := 0 |}
                node_stale ltac:(reflexivity)) as (_ & _ & Hdel).
    rewrite Hdel; [reflexivity|discriminate|reflexivity].
Defined.

(** C9, as amended, on a key with three seconds to live: it is cached with
    lifetime -2. *)
Lemma getTtl_never_refuses_witness :
  (getTtl "k" node_short).1.2 = true /\
  (Get "k" node_short).1 = (true, Some (GoBool true)) /\
  (mem (rs (Get (Value:=GoValue) "k" node_short).2)
   : gmap string (string * Z)) !! "k"
  = Some ("true", -2).
Proof.
  destruct (getTtl_never_refuses (codec:=MiniJson) (redis:=MiniRedis_client)
              (cache:=MemSession_cache) "k" node_short)
    as (Hok & _ & Hfill).
  split; [exact Hok|].
  destruct (Hfill "true" (GoBool true) (handle (rs node_short))
              (3 * Second) (handle (rs node_short))
              ltac:(reflexivity) ltac:(reflexivity) ltac:(reflexivity)
              ltac:(vm_compute; split; [discriminate|reflexivity])
              ltac:(reflexivity))
    as (_ & Hres & Hmem).
  split.
  - rewrite Hres. reflexivity.
  - rewrite Hmem. reflexivity.
Defined.

(** [Delete] on a store whose delete fails: the key stays in the store, is
    gone from the local cache, and the notice is on its way. *)
Example Delete_on_a_failing_store :
  (redisDel "k" (handle (rs node_undeletable))).1 = Err io_error /\
  (Delete "k" node_undeletable).1 = true /\
  memGet "k" (mem (rs node_undeletable)) = Some "true" /\
  memGet "k" (mem (rs (Delete "k" node_undeletable).2)) = None /\
  (redisGet "k" (handle (rs (Delete "k" node_undeletable).2))).1 = Ok "true" /\
  spawned (Delete "k" node_undeletable).2
  = [go_subscribe; go_publish "k" "" 0 2].
Proof. vm_compute. repeat split. Qed.

(** ** Where the statements of the design document fail *)

(** Against C9 as it stands.  The store holds "k" with a value that does
    not decode: the store's Get succeeds, [Get] returns false at line 176,
    and "k" is still absent from the local cache. *)
Lemma Get_store_hit_not_repopulated :
  memGet "k" (mem (rs node_undecodable)) = None /\
  (redisGet "k" (handle (rs node_undecodable))).1 = Ok "oops" /\
  (Get_at (Value:=GoValue) "k" node_undecodable).1
  = (ret_store_decode, (false, None)) /\
  memGet "k" (mem (rs (Get (Value:=GoValue) "k" node_undecodable).2)) = None.
Proof. vm_compute. repeat split. Qed.

(** C10 at its failing input: [HDel] of field "f" in single-endpoint mode.
    [HGet] and [HSet] send the field; [HDel] sends the hash delete with no
    field, as in cluster mode, which the store refuses; so a field that
    was set is still there after its [HDel]. *)
Theorem HDel_single_endpoint_sends_no_field :
  cluster (rs (node_A mini_empty)) = false /\
  issued (HGet "h" "f" (node_A mini_empty)).2 = [(false, CmdHGet "h" "f")] /\
  issued (HSet "h" "f" "x" (node_A mini_empty)).2
  = [(false, CmdHSet "h" "f" "x")] /\
  issued (HDel "h" "f" (node_A mini_empty)).2 = [(false, CmdHDel "h" [])] /\
  (HDel "h" "f" (node_A mini_empty)).1
  = Some "ERR wrong number of arguments for 'hdel' command" /\
  (HGet "h" "f"
     (HDel "h" "f" (HSet "h" "f" "x" (node_A mini_empty)).2).2).1
  = Ok "x" /\
  cluster (rs (node_B mini_empty)) = true /\
  issued (HDel "h" "f" (node_B mini_empty)).2 = [(true, CmdHDel "h" [])].
Proof. vm_compute. repeat split. Qed.

(** Against C5 as it stands.  Three keys match.  When the scan fails, no
    delete has failed and [ScanDelete] returns 0 with the error.  When the
    delete of the first key fails, [ScanDelete] returns 3 with the error
    although the three keys are still in the store. *)
Lemma ScanDelete_count_is_not_deletions :
  (ScanDelete 5 "user:*"
     (node_A (mini_break [CmdScan 0 "user:*" 100] (users 3)))).1
  = Some (0, Some io_error) /\
  (ScanDelete 5 "user:*"
     (node_A (mini_break [CmdDel "user:0"] (users 3)))).1
  = Some (3, Some io_error) /\
  size (strings (handle (rs (ScanDelete 5 "user:*"
     (node_A (mini_break [CmdDel "user:0"] (users 3)))).2)))
  = 3%nat.
Proof. vm_compute. repeat split. Qed.

(** ** ScanDelete over 250 keys *)

(** C5, as amended, on 250 keys: all goes through; the second scan fails;
    the first delete of the second page fails. *)
Lemma ScanDelete_by_rounds_witness :
  (ScanDelete 3 "user:*" (node_A (users 250))).1 = Some (250, None) /\
  (ScanDelete 3 "user:*"
     (node_A (mini_break [CmdScan 100 "user:*" 100] (users 250)))).1
  = Some (0, Some io_error) /\
  (exists n,
      (ScanDelete 3 "user:*"
         (node_A (mini_break [CmdDel "user:100"] (users 250)))).1
      = Some (n, Some io_error)).
Proof.
  split; [|split].
  - pose (w := node_A (users 250)).
    pose (p := play 2 "user:*" 0 w).
    pose (step := on_handle (CmdScan p.2 "user:*" 100)
                    (redisScan p.2 "user:*" 100) p.1.2).
    pose (keys := match step.1 with Ok (ks, _) => ks | Err _ => [] end).
    assert (Hlen : (length p.1.1 < 3)%nat)
      by (apply Nat.ltb_lt; vm_compute; reflexivity).
    assert (Hscan : step = (Ok (keys, 0), step.2))
      by (apply with_first; vm_compute; reflexivity).
    assert (Hdel : del_keys keys step.2 = (None, (del_keys keys step.2).2))
      by (apply with_first; vm_compute; reflexivity).
    destruct (ScanDelete_by_rounds 3 "user:*" w p.1.1 p.1.2 p.2
                (play_rounds 2 "user:*" 0 w) Hlen)
      as (_ & _ & Hend).
    destruct (Hend keys step.2 (del_keys keys step.2).2 Hscan Hdel)
      as [Hres _].
    fold w. rewrite Hres. vm_compute. reflexivity.
  - pose (w := node_A (mini_break [CmdScan 100 "user:*" 100] (users 250))).
    pose (p := play 2 "user:*" 0 w).
    pose (step := on_handle (CmdScan p.2 "user:*" 100)
                    (redisScan p.2 "user:*" 100) p.1.2).
    assert (Hlen : (length p.1.1 < 3)%nat)
      by (apply Nat.ltb_lt; vm_compute; reflexivity).
    assert (Hscan : step = (Err io_error, step.2))
      by (apply with_first; vm_compute; reflexivity).
    destruct (ScanDelete_by_rounds 3 "user:*" w p.1.1 p.1.2 p.2
                (play_rounds 2 "user:*" 0 w) Hlen)
      as (Hfail & _ & _).
    fold w. rewrite (Hfail io_error step.2 Hscan). reflexivity.
  - pose (w := node_A (mini_break [CmdDel "user:100"] (users 250))).
    pose (p := play 2 "user:*" 0 w).
    pose (step := on_handle (CmdScan p.2 "user:*" 100)
                    (redisScan p.2 "user:*" 100) p.1.2).
    pose (keys := match step.1 with Ok (ks, _) => ks | Err _ => [] end).
    assert (Hlen : (length p.1.1 < 3)%nat)
      by (apply Nat.ltb_lt; vm_compute; reflexivity).
    assert (Hscan : step = (Ok (keys, 200), step.2))
      by (apply with_first; vm_compute; reflexivity).
    assert (Hdel : del_keys keys step.2
                   = (Some io_error, (del_keys keys step.2).2))
      by (apply with_first; vm_compute; reflexivity).
    destruct (ScanDelete_by_rounds 3 "user:*" w p.1.1 p.1.2 p.2
                (play_rounds 2 "user:*" 0 w) Hlen)
      as (_ & Hstop & _).
    destruct (Hstop keys 200 step.2 io_error (del_keys keys step.2).2
                Hscan Hdel) as [[n Hres] _].
    exists n. fold w. rewrite Hres. reflexivity.
Defined.

(** The test of the design document: 250 keys go in three rounds of 100,
    100 and 50 keys, three scans and 250 deletes. *)
Example ScanDelete_250_keys :
  map (fun p => (p.1, length p.2)) (play 5 "user:*" 0 (node_A (users 250))).1.1
  = [(0, 100%nat); (100, 100%nat)] /\
  (ScanDelete 2 "user:*" (node_A (users 250))).1 = None /\
  (ScanDelete 3 "user:*" (node_A (users 250))).1 = Some (250, None) /\
  length (issued (ScanDelete 3 "user:*" (node_A (users 250))).2) = 253%nat.
Proof. vm_compute. repeat split. Qed.

(** A delete that fails in the second round: 200 is handed back, 100 keys
    are gone and 150 are left. *)
Example ScanDelete_second_round_fails :
  (ScanDelete 3 "user:*"
     (node_A (mini_break [CmdDel "user:100"] (users 250)))).1
  = Some (200, Some io_error) /\
  size (strings (handle (rs (ScanDelete 3 "user:*"
     (node_A (mini_break [CmdDel "user:100"] (users 250)))).2)))
  = 150%nat.
Proof. vm_compute. repeat split. Qed.

(** ** Runs of the further properties *)

Lemma MemSession_delete_then_get : delete_then_get MemSession.
Proof.
  intros key m. cbn. unfold MemSession_Get, MemSession_Delete.
  rewrite lookup_delete_eq. reflexivity.
Qed.

(** X4 on a message that does not decode, a notice of the node itself and
    a notice with action 7. *)
Lemma listener_passes_over_witness :
  listen (codec:=MiniJson)
    ["garbage";
     wire {| From := "node-A"; Act := 1; Key := "k"; Val := "true";
             Ttl := 30 |};
     wire {| From := "node-B"; Act := 7; Key := "k"; Val := "true";
             Ttl := 30 |}]
    publisher_zero node_stale
  = (tt, node_stale).
Proof.
  apply (listener_passes_over (codec:=MiniJson) (R:=MiniRedis)
           (cache:=MemSession_cache)).
  constructor; [|constructor; [|constructor; [|constructor]]].
  - intros pub0. left. reflexivity.
  - intros pub0. right. left. reflexivity.
  - intros pub0. right. right. split; discriminate.
Defined.

(** X6 on three keys, one of them cached: the bulk delete empties the
    store and the cached key is still served. *)
Lemma ScanDelete_leaves_cached_keys_readable_witness :
  strings (handle (rs (ScanDelete 5 "user:*"
                         (cached "user:1" "true" 60 (node_A (users 3)))).2))
  = ∅ /\
  Get "user:1"
    (ScanDelete 5 "user:*" (cached "user:1" "true" 60 (node_A (users 3)))).2
  = ((true, Some (GoBool true)),
     (ScanDelete 5 "user:*" (cached "user:1" "true" 60 (node_A (users 3)))).2).
Proof.
  split; [vm_compute; reflexivity|].
  apply (ScanDelete_leaves_cached_keys_readable (codec:=MiniJson)
           (redis:=MiniRedis_client) (cache:=MemSession_cache)
           5 "user:*" "user:1" "true" (GoBool true));
    reflexivity.
Defined.

(** X8 on 250 keys: 250 is the number of deletes in the log. *)
Lemma ScanDelete_counts_its_deletes_witness :
  250 = Z.of_nat (deletes (issued (ScanDelete 3 "user:*"
                                     (node_A (users 250))).2)).
Proof.
  assert (Hrun : ScanDelete 3 "user:*" (node_A (users 250))
                 = (Some (250, None),
                    (ScanDelete 3 "user:*" (node_A (users 250))).2))
    by (apply with_first; vm_compute; reflexivity).
  destruct (ScanDelete_counts_its_deletes (redis:=MiniRedis_client)
              3 "user:*" _ 250 _ Hrun) as (cmds & Hi & Hn).
  change (issued (node_A (users 250))) with (@nil (bool * Cmd)) in Hi.
  cbn [app] in Hi. rewrite Hi. apply Hn. rewrite <- Hi.
  vm_compute. split; [discriminate|reflexivity].
Defined.

(** X10 on a key with a minute to live. *)
Lemma Get_then_Get_is_local_witness :
  Get "k" (Get (Value:=GoValue) "k" node_minute).2
  = ((true, Some (GoBool true)), (Get (Value:=GoValue) "k" node_minute).2).
Proof.
  apply (proj2 (Get_then_Get_is_local (codec:=MiniJson)
                  (redis:=MiniRedis_client) (cache:=MemSession_cache)
                  "k" node_minute "true" (GoBool true)
                  (handle (rs node_minute)) (60 * Second)
                  (handle (rs node_minute))
                  MemSession_set_then_get
                  ltac:(reflexivity) ltac:(reflexivity) ltac:(reflexivity)
                  ltac:(vm_compute; split; [discriminate|reflexivity])
                  ltac:(reflexivity) ltac:(reflexivity))).
Defined.

(** X11 on a key with three seconds to live: the lifetime handed to the
    local cache is not positive. *)
Lemma Get_lifetime_is_positive_from_six_seconds_witness :
  exists t,
    mem (rs (Get (Value:=GoValue) "k" node_short).2)
    = (memSet "k" "true" t (mem (rs node_short))).2 /\
    ~ 0 < t.
Proof.
  destruct (Get_lifetime_is_positive_from_six_seconds (codec:=MiniJson)
              (redis:=MiniRedis_client) (cache:=MemSession_cache)
              "k" node_short "true" (GoBool true)
              (handle (rs node_short)) (3 * Second) (handle (rs node_short))
              ltac:(reflexivity) ltac:(reflexivity) ltac:(reflexivity)
              ltac:(vm_compute; split; [discriminate|reflexivity])
              ltac:(reflexivity))
    as (t & Hmem & Hpos).
  exists t. split; [exact Hmem|].
  intros Ht. apply Hpos in Ht. vm_compute in Ht. apply Ht. reflexivity.
Defined.

(** X12 on a key with three seconds to live and on a key without expiry. *)
Lemma getTtl_reads_seconds_witness :
  (getTtl "k" node_short).1.1 = 3 /\
  (redisTTL "k" (handle (rs node_no_expiry))).1 = -1 /\
  (getTtl "k" node_no_expiry).1.1 = 0.
Proof.
  split; [|split; [reflexivity|]].
  - apply (proj1 (getTtl_reads_seconds (redis:=MiniRedis_client)
                    "k" node_short (3 * Second) (handle (rs node_short)) 3
                    ltac:(reflexivity))).
    reflexivity.
  - apply (proj2 (getTtl_reads_seconds (redis:=MiniRedis_client)
                    "k" node_no_expiry (-1) (handle (rs node_no_expiry)) 0
                    ltac:(reflexivity))).
    vm_compute. split; reflexivity.
Defined.

(** X13 on a lifetime of one minute. *)
Lemma Set_gives_one_lifetime_witness :
  issued (Set_ "k" (GoBool true) 60 (node_A mini_empty)).2
  = [(false, CmdSet "k" "true" 60000000000)] /\
  (mem (rs (Set_ "k" (GoBool true) 60 (node_A mini_empty)).2)
   : gmap string (string * Z)) !! "k"
  = Some ("true", 60) /\
  spawned (Set_ "k" (GoBool true) 60 (node_A mini_empty)).2
  = [go_subscribe; go_publish "k" "true" 60 1].
Proof.
  destruct (Set_gives_one_lifetime (codec:=MiniJson)
              (redis:=MiniRedis_client) (cache:=MemSession_cache)
              "k" (GoBool true) 60 (node_A mini_empty) "true"
              (mini_put "k" "true" (60 * Second) mini_empty)
              ltac:(reflexivity) ltac:(lia)
              ltac:(vm_compute; split; [discriminate|reflexivity])
              ltac:(reflexivity))
    as (_ & Hsent & Hmem & Hgo & _).
  split; [rewrite Hsent; reflexivity|].
  split; [rewrite Hmem; reflexivity|].
  rewrite Hgo. reflexivity.
Defined.

(** X14 from node-A to node-B, which holds an older value of the key. *)
Lemma Set_reaches_the_peers_witness :
  channel (handle (rs (run (codec:=MiniJson) (go_publish "k" "true" 60 1) []
                         (Set_ "k" (GoBool true) 60 (node_A mini_empty)).2).2))
  = [(redis_sync_chan, update_of_k)] /\
  memGet "k" (mem (rs node_B_stale)) = Some "false" /\
  Get "k" (on_message update_of_k publisher_zero node_B_stale).2
  = ((true, Some (GoBool true)),
     (on_message update_of_k publisher_zero node_B_stale).2).
Proof.
  assert (Hset : Set_ "k" (GoBool true) 60 (node_A mini_empty)
                 = (true, (Set_ "k" (GoBool true) 60 (node_A mini_empty)).2))
    by (apply with_first; reflexivity).
  destruct (Set_reaches_the_peers (codec:=MiniJson)
              (redis:=MiniRedis_client) (cache:=MemSession_cache)
              "k" (GoBool true) 60 (node_A mini_empty) _ node_B_stale
              "true" update_of_k
              Hset ltac:(reflexivity) ltac:(reflexivity)
              ltac:(intros pub; reflexivity) ltac:(discriminate))
    as (_ & _ & _ & Hpeer).
  split; [vm_compute; reflexivity|]. split; [reflexivity|].
  destruct (Hpeer publisher_zero) as (_ & Hget & _).
  apply Hget; [exact MiniJson_roundtrip|exact MemSession_set_then_get].
Defined.

(** X15 from node-A to node-B, both holding the key. *)
Lemma Delete_reaches_the_peers_witness :
  memGet "k" (mem (rs node_B_fresh)) = Some "true" /\
  memGet "k" (mem (rs (on_message delete_of_k publisher_zero
                         node_B_fresh).2))
  = None /\
  exists rest,
    issued (Get (Value:=GoValue) "k"
              (on_message delete_of_k publisher_zero node_B_fresh).2).2
    = (true, CmdGet "k") :: rest.
Proof.
  destruct (Delete_reaches_the_peers (codec:=MiniJson)
              (redis:=MiniRedis_client) (cache:=MemSession_cache)
              "k" node_stale node_B_fresh delete_of_k
              ltac:(reflexivity) ltac:(intros pub; reflexivity)
              ltac:(discriminate) MemSession_delete_then_get)
    as (_ & _ & Hpeer).
  destruct (Hpeer publisher_zero) as (Hmem & rest & Hrest).
  split; [reflexivity|]. split.
  - rewrite Hmem. reflexivity.
  - exists rest. rewrite Hrest. reflexivity.
Defined.

(** A program on a fresh single-endpoint session: every command is on
    [client]. *)
Example program_on_a_fresh_session :
  map fst (issued (perform_all
                     [call_Set "k" (GoBool true) 0; call_Get "k";
                      call_HSet "h" "f" "x"; call_Delete "k";
                      call_Get "k"; call_ScanDelete 3 "*";
                      call_run (go_publish "k" "" 0 2) []]
                     (node_A mini_empty)))
  = [false; false; false; false; false; false].
Proof. vm_compute. reflexivity. Qed.
